(** * dqlx: query assembly, mutation assembly and response decoding

    A shallow embedding of [query_operation.go] (the query assembler and the
    variable table builder) and of the executor file (mutation assembly and
    response decoding), followed by the properties established about them.

    Conventions of the embedding:
    - a Go [string] is a [string], a sequence of bytes; [strings.ToLower]
      and [strings.Title] are modelled on ASCII strings only, and what is
      stated of a name they have gone through is stated of ASCII names;
    - a Go [map] is a [gmap]; a map that may be [nil] is an [option];
    - an [interface{}] value is a [GoValue], tagged with its dynamic type;
    - an interface value with argument-free methods on an immutable
      receiver is the record of what its methods return;
    - a function that may panic returns an [outcome]. *)

From stdpp Require Import gmap strings list fin_maps pretty sorting.
From Stdlib Require Import ZArith Ascii String Lia.

Open Scope string_scope.

#[global] Set Warnings "-register-all".

(* ===================================================================== *)
(** * Part I: definitions                                                 *)
(* ===================================================================== *)

(** ** What a call can do besides returning *)

Inductive outcome (A : Type) : Type :=
| Ok (a : A)            (* the call returned *)
| Panic (msg : string)  (* a run-time panic unwound the call *)
| OutOfFuel.            (* the model's loop budget ran out; never the case
                           for the functions below, see [replacePlaceholders_fuel] *)
Arguments Ok {A} a.
Arguments Panic {A} msg.
Arguments OutOfFuel {A}.

Global Instance outcome_bind : MBind outcome := fun A B k m =>
  match m with
  | Ok a => k a
  | Panic msg => Panic msg
  | OutOfFuel => OutOfFuel
  end.
Global Instance outcome_ret : MRet outcome := fun A a => Ok a.

(** ** The parts of Go's [strings] and [fmt] packages the code calls *)

Module GoStrings.

Definition code (c : ascii) : N := N_of_ascii c.

Definition is_upper (c : ascii) : bool := (65 <=? code c)%N && (code c <=? 90)%N.
Definition is_lower (c : ascii) : bool := (97 <=? code c)%N && (code c <=? 122)%N.
Definition is_digit (c : ascii) : bool := (48 <=? code c)%N && (code c <=? 57)%N.

Definition to_lower (c : ascii) : ascii :=
  if is_upper c then ascii_of_N (code c + 32) else c.
Definition to_title (c : ascii) : ascii :=
  if is_lower c then ascii_of_N (code c - 32) else c.

Fixpoint map_chars (f : ascii -> ascii) (s : string) : string :=
  match s with
  | EmptyString => EmptyString
  | String c s' => String (f c) (map_chars f s')
  end.

(** [strings.ToLower] on an ASCII string, where the library lower-cases
    byte by byte.  On a string with a byte outside ASCII the library maps
    the runes through its Unicode tables, which are not modelled: there
    this definition, which leaves such bytes as they are, is not the
    library's function. *)
Definition ToLower (s : string) : string := map_chars to_lower s.

(** [isSeparator] of package [strings]: among ASCII characters, letters,
    digits and the underscore are the ones that do not separate words.
    A byte outside ASCII is taken as part of a letter. *)
Definition isSeparator (c : ascii) : bool :=
  if (code c <=? 127)%N
  then negb (is_digit c || is_lower c || is_upper c || Ascii.eqb c "_")
  else false.

(** [strings.Title] on an ASCII string: a closure remembers the previous
    character, which starts as a space, and the character after a
    separator is put in title case.  As for [ToLower], a string with a
    byte outside ASCII is outside this model. *)
Fixpoint Title_from (prev : ascii) (s : string) : string :=
  match s with
  | EmptyString => EmptyString
  | String r s' =>
      String (if isSeparator prev then to_title r else r) (Title_from r s')
  end.

Definition Title (s : string) : string := Title_from " " s.

(** [strings.Join]. *)
Fixpoint Join (elems : list string) (sep : string) : string :=
  match elems with
  | [] => ""
  | [a] => a
  | a :: rest => a ++ sep ++ Join rest sep
  end.

(** [strings.HasPrefix]. *)
Fixpoint HasPrefix (s pre : string) {struct pre} : bool :=
  match pre, s with
  | EmptyString, _ => true
  | String a pre', String b s' => Ascii.eqb a b && HasPrefix s' pre'
  | String _ _, EmptyString => false
  end.

(** [strings.Index]: the byte index of the first instance of [sep] in
    [s], [None] standing for -1. *)
Fixpoint Index (s sep : string) : option nat :=
  if HasPrefix s sep then Some 0
  else match s with
       | EmptyString => None
       | String _ s' => S <$> Index s' sep
       end.

(** The slices [s[:p]] and [s[p:]] (for [p] within the string). *)
Fixpoint slice_to (p : nat) (s : string) : string :=
  match p, s with
  | S p', String c s' => String c (slice_to p' s')
  | _, _ => EmptyString
  end.

Fixpoint slice_from (p : nat) (s : string) : string :=
  match p, s with
  | S p', String _ s' => slice_from p' s'
  | _, _ => s
  end.

(** [%d] applied to an index (a non-negative [int]) and to any integer. *)
Definition fmt_d (n : nat) : string := pretty n.
Definition fmt_dZ (n : Z) : string := pretty n.

End GoStrings.

(** ** Go errors *)

(** An [error] value, identified by its message. *)
Inductive error : Type := Err (msg : string).

Global Instance error_eq_dec : EqDecision error.
Proof. solve_decision. Defined.

(** ** The part of Go's [time] package the code calls

    [time.Time.Format] and [time.Parse], both with the layout
    [time.RFC3339] = 2006-01-02T15:04:05Z07:00.  The package is not part
    of the repository; this is a model of it, as of Go 1.20 and later, on
    the proleptic Gregorian calendar. *)

Module GoTime.

Import GoStrings.
Open Scope Z_scope.

(** A [time.Time]: an instant, as seconds and nanoseconds since the Unix
    epoch, and the offset of its location at that instant, in seconds
    east of UTC. *)
Record Time : Type := mkTime { unixSec : Z; nsec : Z; offset : Z }.

Global Instance Time_eq_dec : EqDecision Time.
Proof. solve_decision. Defined.

(** [Time.Equal]: the same instant, whatever the location. *)
Definition same_instant (a b : Time) : Prop :=
  unixSec a = unixSec b /\ nsec a = nsec b.

Definition isLeap (year : Z) : bool :=
  (year mod 4 =? 0) && (negb (year mod 100 =? 0) || (year mod 400 =? 0)).

Definition daysInYear (year : Z) : Z := if isLeap year then 366 else 365.

(** Days before the first of each month in a non-leap year. *)
Definition daysBefore (month : Z) : Z :=
  match month with
  | 1 => 0 | 2 => 31 | 3 => 59 | 4 => 90 | 5 => 120 | 6 => 151
  | 7 => 181 | 8 => 212 | 9 => 243 | 10 => 273 | 11 => 304 | 12 => 334
  | _ => 365
  end.

Definition daysIn (month year : Z) : Z :=
  if (month =? 2) && isLeap year then 29
  else daysBefore (month + 1) - daysBefore month.

(** Days from 0000-01-01 to the first of January of [year]. *)
Definition daysBeforeYear (year : Z) : Z :=
  365 * year + (year + 3) / 4 - (year + 99) / 100 + (year + 399) / 400.

Definition daysPer400Years : Z := 146097.
Definition unixEpochDay : Z := 719528.    (* 1970-01-01 *)
Definition secondsPerDay : Z := 86400.

(** From a day number to the civil date: whole 400-year cycles first,
    then year by year, then month by month. *)
Fixpoint split_year (fuel : nat) (year n : Z) : Z * Z :=
  match fuel with
  | O => (year, n)
  | S fuel' =>
      if n <? daysInYear year then (year, n)
      else split_year fuel' (year + 1) (n - daysInYear year)
  end.

Fixpoint split_month (fuel : nat) (year month n : Z) : Z * Z :=
  match fuel with
  | O => (month, n)
  | S fuel' =>
      if n <? daysIn month year then (month, n)
      else split_month fuel' year (month + 1) (n - daysIn month year)
  end.

Definition civil_from_days (n : Z) : Z * Z * Z :=
  let '(year, yday) :=
    split_year 400 (400 * (n / daysPer400Years)) (n mod daysPer400Years) in
  let '(month, d) := split_month 11 year 1 yday in
  (year, month, d + 1).

(** From the civil date to the day number, as [time.Date] counts. *)
Definition days_from_civil (year month day : Z) : Z :=
  daysBeforeYear year + daysBefore month
  + (if isLeap year && (3 <=? month) then 1 else 0) + (day - 1).

Definition digit_char (d : Z) : ascii := ascii_of_N (48 + Z.to_N d).

Fixpoint zeros (n : nat) : string :=
  match n with O => "" | S n' => String "0" (zeros n') end.

(** [appendInt]: the decimal form of [x], zero-padded to [width]. *)
Definition appendInt (x : Z) (width : nat) : string :=
  let u := Z.abs x in
  let sign : string := if x <? 0 then "-" else "" in
  let body : string :=
    if (Nat.eqb width 2) && (u <? 100) then
      String (digit_char (u / 10)) (String (digit_char (u mod 10)) "")
    else if (Nat.eqb width 4) && (u <? 10000) then
      String (digit_char (u / 1000)) (String (digit_char (u / 100 mod 10))
        (String (digit_char (u / 10 mod 10)) (String (digit_char (u mod 10)) "")))
    else
      let digits := fmt_dZ u in
      (zeros (width - String.length digits) ++ digits)%string in
  (sign ++ body)%string.

(** The zone element Z07:00 of the layout. *)
Definition format_zone (off : Z) : string :=
  if off =? 0 then "Z"
  else
    let zone := Z.quot off 60 in
    let sign : string := if zone <? 0 then "-" else "+" in
    (sign ++ appendInt (Z.abs zone / 60) 2 ++ ":" ++ appendInt (Z.abs zone mod 60) 2)%string.

(** [t.Format(time.RFC3339)].  The layout has no fractional seconds. *)
Definition Format_RFC3339 (t : Time) : string :=
  let abs := unixSec t + offset t in
  let '(year, month, day) := civil_from_days (abs / secondsPerDay + unixEpochDay) in
  let secs := abs mod secondsPerDay in
  let hour := secs / 3600 in
  let min := secs mod 3600 / 60 in
  let sec := secs mod 60 in
  (appendInt year 4 ++ "-" ++ appendInt month 2 ++ "-" ++ appendInt day 2
   ++ "T" ++ appendInt hour 2 ++ ":" ++ appendInt min 2
   ++ ":" ++ appendInt sec 2 ++ format_zone (offset t))%string.

Definition digit_val (c : ascii) : option Z :=
  if is_digit c then Some (Z.of_N (code c) - 48) else None.

(** [parseUint]: a run of decimal digits, accepted within a range. *)
Fixpoint digits_val (acc : Z) (cs : list ascii) : option Z :=
  match cs with
  | [] => Some acc
  | c :: cs' => d ← digit_val c; digits_val (10 * acc + d) cs'
  end.

Definition parseUint (cs : list ascii) (lo hi : Z) : option Z :=
  v ← digits_val 0 cs;
  if (lo <=? v) && (v <=? hi) then Some v else None.

(** The digits of a fractional second: all consumed, the first nine count. *)
Fixpoint span_digits (cs : list ascii) : list ascii * list ascii :=
  match cs with
  | c :: cs' =>
      if is_digit c then let '(ds, rest) := span_digits cs' in (c :: ds, rest)
      else ([], cs)
  | [] => ([], [])
  end.

Definition parseNanoseconds (ds : list ascii) : option Z :=
  let ds9 := take 9 ds in
  v ← digits_val 0 ds9;
  Some (v * 10 ^ (9 - Z.of_nat (List.length ds9))).

Definition parse_fraction (cs : list ascii) : option (Z * list ascii) :=
  match cs with
  | dot :: d :: _ =>
      if Ascii.eqb dot "." && is_digit d then
        let '(ds, rest) := span_digits (tail cs) in
        ns ← parseNanoseconds ds; Some (ns, rest)
      else Some (0, cs)
  | _ => Some (0, cs)
  end.

Definition parse_zone (cs : list ascii) : option Z :=
  match cs with
  | [z] => if Ascii.eqb z "Z" then Some 0 else None
  | [sg; h1; h2; colon; m1; m2] =>
      hr ← parseUint [h1; h2] 0 23;
      mm ← parseUint [m1; m2] 0 59;
      if (Ascii.eqb sg "-" || Ascii.eqb sg "+") && Ascii.eqb colon ":" then
        let zoneOffset := (hr * 60 + mm) * 60 in
        Some (if Ascii.eqb sg "-" then - zoneOffset else zoneOffset)
      else None
  | _ => None
  end.

Definition parse_error : error := Err "parsing time: cannot parse as RFC3339".

(** [parseRFC3339], the parser the package has for this layout alone and
    tries first: fixed-width fields checked against their ranges, an
    optional fractional second after a period, then Z or a numeric zone
    of at most 23:59. *)
Definition parseRFC3339 (s : string) : option Time :=
  match list_ascii_of_string s with
  | y1 :: y2 :: y3 :: y4 :: s1 :: m1 :: m2 :: s2 :: d1 :: d2 :: sT
    :: h1 :: h2 :: s3 :: n1 :: n2 :: s4 :: c1 :: c2 :: rest =>
      year ← parseUint [y1; y2; y3; y4] 0 9999;
      month ← parseUint [m1; m2] 1 12;
      day ← parseUint [d1; d2] 1 (daysIn month year);
      hour ← parseUint [h1; h2] 0 23;
      min ← parseUint [n1; n2] 0 59;
      sec ← parseUint [c1; c2] 0 59;
      if Ascii.eqb s1 "-" && Ascii.eqb s2 "-" && Ascii.eqb sT "T"
         && Ascii.eqb s3 ":" && Ascii.eqb s4 ":" then
        '(ns, rest') ← parse_fraction rest;
        zoneOffset ← parse_zone rest';
        Some {| unixSec :=
                  (days_from_civil year month day - unixEpochDay) * secondsPerDay
                  + hour * 3600 + min * 60 + sec - zoneOffset;
                nsec := ns;
                offset := zoneOffset |}
      else None
  | _ => None
  end.

(** [getnum]: one or two decimal digits; with [fixed], two. *)
Definition getnum (value : list ascii) (fixed : bool) : option (Z * list ascii) :=
  match value with
  | c1 :: rest =>
      d1 ← digit_val c1;
      match rest with
      | c2 :: rest' =>
          match digit_val c2 with
          | Some d2 => Some (d1 * 10 + d2, rest')
          | None => if fixed then None else Some (d1, rest)
          end
      | [] => if fixed then None else Some (d1, rest)
      end
  | [] => None
  end.

(** [skip], for a prefix of one character that is not a space. *)
Definition skip (value : list ascii) (prefix : ascii) : option (list ascii) :=
  match value with
  | c :: rest => if Ascii.eqb c prefix then Some rest else None
  | [] => None
  end.

Definition commaOrPeriod (c : ascii) : bool := Ascii.eqb c "." || Ascii.eqb c ",".

(** The fractional second the general parser reads after the seconds
    although the layout has none: a period or a comma and digits. *)
Definition parse_any_fraction (value : list ascii) : option (Z * list ascii) :=
  match value with
  | sep :: d :: _ =>
      if commaOrPeriod sep && is_digit d then
        let '(ds, rest) := span_digits (tail value) in
        ns ← parseNanoseconds ds; Some (ns, rest)
      else Some (0, value)
  | _ => Some (0, value)
  end.

(** The element Z07:00 in the general parser: Z, or a sign, two digits, a
    colon and two digits, the hours at most 24 and the minutes at most 60. *)
Definition parse_any_zone (value : list ascii) : option (Z * list ascii) :=
  match value with
  | sg :: rest =>
      if Ascii.eqb sg "Z" then Some (0, rest)
      else
        match rest with
        | h1 :: h2 :: colon :: m1 :: m2 :: rest' =>
            if Ascii.eqb colon ":" then
              '(hr, _) ← getnum [h1; h2] true;
              '(mm, _) ← getnum [m1; m2] true;
              if (24 <? hr) || (60 <? mm) then None
              else
                let zoneOffset := (hr * 60 + mm) * 60 in
                if Ascii.eqb sg "+" then Some (zoneOffset, rest')
                else if Ascii.eqb sg "-" then Some (- zoneOffset, rest')
                else None
            else None
        | _ => None
        end
  | [] => None
  end.

(** [parse], the general parser, run with this layout: element by
    element, a year of four digits, a month, a day and the minutes and
    seconds of two digits, an hour of one or two, each within its range,
    the day checked against the month at the end, and nothing left over. *)
Definition parse (value : list ascii) : option Time :=
  match value with
  | y1 :: y2 :: y3 :: y4 :: value =>
      year ← digits_val 0 [y1; y2; y3; y4];
      value ← skip value "-";
      '(month, value) ← getnum value true;
      if (month <=? 0) || (12 <? month) then None else
      value ← skip value "-";
      '(day, value) ← getnum value true;
      value ← skip value "T";
      '(hour, value) ← getnum value false;
      if 24 <=? hour then None else
      value ← skip value ":";
      '(min, value) ← getnum value true;
      if 60 <=? min then None else
      value ← skip value ":";
      '(sec, value) ← getnum value true;
      if 60 <=? sec then None else
      '(ns, value) ← parse_any_fraction value;
      '(zoneOffset, value) ← parse_any_zone value;
      match value with
      | [] =>
          if (day <? 1) || (daysIn month year <? day) then None
          else
            Some {| unixSec :=
                      (days_from_civil year month day - unixEpochDay) * secondsPerDay
                      + hour * 3600 + min * 60 + sec - zoneOffset;
                    nsec := ns;
                    offset := zoneOffset |}
      | _ :: _ => None
      end
  | _ => None
  end.

(** [time.Parse(time.RFC3339, s)], as the package has it since Go 1.20:
    the parser for this layout first and, when that one does not accept
    the text, the general parser.  Every failure is the one
    [parse_error]. *)
Definition Parse_RFC3339 (s : string) : error + Time :=
  match parseRFC3339 s with
  | Some t => inr t
  | None =>
      match parse (list_ascii_of_string s) with
      | Some t => inr t
      | None => inl parse_error
      end
  end.

End GoTime.

(** ** The data of the package *)

Module Dqlx.

Import GoStrings GoTime.

(** An [interface{}] value with its dynamic type.  A float and a value
    of a type the code has no case for are kept as the text [%v] prints
    for them, which is all the code ever asks of them. *)
Inductive GoValue : Type :=
| VNil
| VString (s : string)
| VInt (n : Z)
| VInt8 (n : Z)
| VInt16 (n : Z)
| VInt32 (n : Z)
| VInt64 (n : Z)
| VUint (n : Z)                 (* any unsigned integer type *)
| VFloat32 (shown : string)
| VFloat64 (shown : string)
| VBool (b : bool)
| VTime (t : Time)              (* time.Time *)
| VTimePtr (p : option Time)    (* *time.Time, [None] the nil pointer *)
| VOther (shown : string).

Global Instance GoValue_eq_dec : EqDecision GoValue.
Proof. solve_decision. Defined.

(** [fmt.Sprintf("%v", val)].  The two time cases are never asked for:
    [toVariableValue] formats times itself. *)
Definition fmt_v (val : GoValue) : string :=
  match val with
  | VNil => "<nil>"
  | VString s => s
  | VInt n | VInt8 n | VInt16 n | VInt32 n | VInt64 n | VUint n => fmt_dZ n
  | VFloat32 shown | VFloat64 shown | VOther shown => shown
  | VBool b => if b then "true" else "false"
  | VTime _ | VTimePtr _ => ""
  end.

(** What [ToDQL() (query string, args []interface{}, err error)] returns. *)
Record DQLOut : Type := mkDQLOut {
  out_query : string;
  out_args : list GoValue;
  out_err : option error
}.

(** The interface [DQLizer], and [Operation], which embeds it. *)
Record DQLizer : Type := mkDQLizer { ToDQL : DQLOut }.

Record Operation : Type := mkOperation {
  asDQLizer : DQLizer;
  GetName : string
}.

(** Modelled from the spec: the struct [edge], whose declaration and
    methods are not in the sources at hand.  It is the root traversal of a
    query: it has the field [Name], [GetName] returns that name, and what
    it compiles to is decided by its other fields together with the name,
    kept here as the function from the name to the compile result. *)
Record edge : Type := mkEdge {
  Name : string;
  edge_compile : string -> DQLOut
}.

Definition edge_ToDQL (e : edge) : DQLOut := edge_compile e (Name e).
Definition edge_GetName (e : edge) : string := Name e.

(** An [edge] used where an [Operation] is expected. *)
Definition edge_Operation (e : edge) : Operation :=
  {| asDQLizer := {| ToDQL := edge_ToDQL e |}; GetName := edge_GetName e |}.

(** The generic values [json.Unmarshal] produces: nil, bool, float64
    (kept as its text), string, []interface{}, map[string]interface{}. *)
Inductive JSON : Type :=
| JNull
| JBool (b : bool)
| JNumber (shown : string)
| JString (s : string)
| JArray (items : list JSON)
| JObject (fields : list (string * JSON)).

(** The type of the destination a decode hook is asked about. *)
Inductive DestType : Type := TimeType | OtherType.

Definition DecodeHookFunc : Type := JSON -> DestType -> error + GoValue.

(** A decode destination, as the caller hands it over in [interface{}]:
    the cell it designates, whether it is a pointer, and what the
    structural decoder (package mapstructure, not part of the repository)
    does with it: given the decode hook, the input and the current
    content of the cell, the content afterwards and the error, if any. *)
Record Dest : Type := mkDest {
  dest_addr : nat;
  dest_is_ptr : bool;
  dest_decode : DecodeHookFunc -> JSON -> GoValue -> GoValue * option error
}.

(** Modelled from the spec: the struct [QueryBuilder], declared outside
    the sources at hand: a root edge carrying the name, an ordered sequence
    of auxiliary variable queries and an optional decode destination. *)
Inductive QueryBuilder : Type := mkQueryBuilder {
  rootEdge : edge;
  query_variables : list QueryBuilder;
  unmarshalInto : option Dest
}.

(** Modelled from the spec: the method [QueryBuilder.Name], which renames
    a query: the copy it returns has the new name on its root edge. *)
Definition QueryBuilder_Name (builder : QueryBuilder) (name : string) : QueryBuilder :=
  {| rootEdge := {| Name := name; edge_compile := edge_compile (rootEdge builder) |};
     query_variables := query_variables builder;
     unmarshalInto := unmarshalInto builder |}.

(** ** query_operation.go *)

Record queryOperation : Type := mkQueryOperation {
  operations : list Operation;
  variables : list Operation
}.

Definition toVariableValue (value : GoValue) : outcome string :=
  match value with
  | VTime val => Ok (Format_RFC3339 val)
  | VTimePtr (Some val) => Ok (Format_RFC3339 val)
  | VTimePtr None => Panic "invalid memory address or nil pointer dereference"
  | val => Ok (fmt_v val)
  end.

(** The loop of [ensureUniqueQueryNames], from position [index] on, with
    the names seen so far. *)
Fixpoint ensureUniqueQueryNames_from (index : nat) (queryNames : gmap string bool)
    (queries : list QueryBuilder) : list QueryBuilder :=
  match queries with
  | [] => []
  | query :: rest =>
      let query :=
        if default false (queryNames !! Name (rootEdge query))
        then QueryBuilder_Name query (Name (rootEdge query) ++ "_" ++ fmt_d index)
        else query in
      query :: ensureUniqueQueryNames_from (S index)
                 (<[Name (rootEdge query) := true]> queryNames) rest
  end.

Definition ensureUniqueQueryNames (queries : list QueryBuilder) : list QueryBuilder :=
  ensureUniqueQueryNames_from 0 ∅ queries.

Definition goTypeToDQLType (value : GoValue) : string :=
  match value with
  | VString _ => "string"
  | VInt _ | VInt8 _ | VInt32 _ | VInt64 _ => "int"
  | VFloat32 _ | VFloat64 _ => "float"
  | VBool _ => "bool"
  | VTime _ | VTimePtr _ => "datetime"
  | _ => "string"
  end.

(** The loop of [replacePlaceholders].  Every round removes at least the
    two bytes of a marker from [query], so a budget of one round more than
    the length of the text is never used up. *)
Fixpoint replacePlaceholders_loop (fuel : nat) (query : string) (args : list GoValue)
    (transform : nat -> GoValue -> string) (i : nat) (buf : string)
    (variables : gmap nat GoValue) : outcome (string * gmap nat GoValue) :=
  match fuel with
  | O => OutOfFuel
  | S fuel' =>
      match Index query "??" with
      | None => Ok (buf ++ query, variables)
      | Some p =>
          match args !! i with
          | None => Panic "index out of range"
          | Some arg =>
              let buf := buf ++ slice_to p query ++ transform i arg in
              let query := slice_from (p + 2) query in
              replacePlaceholders_loop fuel' query args transform (S i) buf
                (<[i := arg]> variables)
          end
      end
  end.

Definition replacePlaceholders (query : string) (args : list GoValue)
    (transform : nat -> GoValue -> string) : outcome (string * gmap nat GoValue) :=
  replacePlaceholders_loop (S (String.length query)) query args transform 0 "" ∅.

(** Modelled from the spec: [getSortedVariables], which is outside the
    sources at hand: the indices of the variable table, sorted. *)
Definition getSortedVariables (rawVariables : gmap nat GoValue) : list nat :=
  merge_sort Nat.le (fst <$> map_to_list rawVariables).

(** Reading a map of [interface{}]: an absent key reads as nil. *)
Definition raw_lookup (rawVariables : gmap nat GoValue) (k : nat) : GoValue :=
  default VNil (rawVariables !! k).

Fixpoint toVariables_loop (rawVariables : gmap nat GoValue) (index : nat)
    (names : list nat) (variables : gmap string string) (placeholders : list string)
    : outcome (gmap string string * list string) :=
  match names with
  | [] => Ok (variables, placeholders)
  | placeholderName :: rest =>
      let variableName := "$" ++ fmt_d placeholderName in
      value ← toVariableValue (raw_lookup rawVariables index);
      if decide (index < List.length placeholders)%nat then
        toVariables_loop rawVariables (S index) rest
          (<[variableName := value]> variables)
          (<[index := "$" ++ fmt_d placeholderName ++ ":"
                      ++ goTypeToDQLType (raw_lookup rawVariables placeholderName)]>
             placeholders)
      else Panic "index out of range"
  end.

Definition toVariables (rawVariables : gmap nat GoValue)
    : outcome (gmap string string * list string) :=
  toVariables_loop rawVariables 0 (getSortedVariables rawVariables)
    ∅ (replicate (size rawVariables) "").

(** [addStatement] appends through its two pointers; here the slices go
    in and come out. *)
Fixpoint addStatement (parts : list DQLizer) (statements : list string)
    (args : list GoValue) : list string * list GoValue * option error :=
  match parts with
  | [] => (statements, args, None)
  | block :: rest =>
      let '(mkDQLOut statement queryArg err) := ToDQL block in
      match err with
      | Some e => (statements, args, Some e)
      | None => addStatement rest (statements ++ [statement]) (args ++ queryArg)
      end
  end.

Definition addOperation (operations : list Operation) (statements : list string)
    (args : list GoValue) : list string * list GoValue * option error :=
  addStatement (asDQLizer <$> operations) statements args.

Definition addPart (part : DQLizer) (writer : string) (args : list GoValue)
    : string * list GoValue * option error :=
  let '(mkDQLOut statement statementArgs err) := ToDQL part in
  let args := (args ++ statementArgs)%list in
  match err with
  | Some e => (writer, args, Some e)
  | None => (writer ++ statement, args, None)
  end.

(** What [ToDQL] and [QueriesToDQL] return:
    [(query string, variables map[string]string, err error)]. *)
Definition Compiled : Type := string * option (gmap string string) * option error.

Definition queryOperation_ToDQL (grammar : queryOperation) : outcome Compiled :=
  let blocNames := (fun block => Title (ToLower (GetName block))) <$> operations grammar in
  let queryName := Join blocNames "_" in
  let '(statements, args, err) := addOperation (variables grammar) [] [] in
  match err with
  | Some e => Ok ("", None, Some e)
  | None =>
      let '(statements, args, err) := addOperation (operations grammar) statements args in
      match err with
      | Some e => Ok ("", None, Some e)
      | None =>
          let innerQuery := Join statements " " in
          '(query, rawVariables) ←
            replacePlaceholders innerQuery args (fun index _ => "$" ++ fmt_d index);
          '(variables, placeholders) ← toVariables rawVariables;
          Ok ("query " ++ queryName ++ "(" ++ Join placeholders ", " ++ ") {"
              ++ (" " ++ query) ++ " }",
              Some variables, None)
      end
  end.

(** The loop of [QueriesToDQL] that fills the main operation. *)
Fixpoint collect (queries : list QueryBuilder) (mainOperation : queryOperation)
    : queryOperation :=
  match queries with
  | [] => mainOperation
  | query :: rest =>
      collect rest
        {| operations := operations mainOperation ++ [edge_Operation (rootEdge query)];
           variables := variables mainOperation
                        ++ ((fun variable => edge_Operation (rootEdge variable))
                              <$> query_variables query) |}
  end.

Definition QueriesToDQL (queries : list QueryBuilder) : outcome Compiled :=
  let queries := ensureUniqueQueryNames queries in
  queryOperation_ToDQL (collect queries {| operations := []; variables := [] |}).

(** ** The executor file *)

(** The wire records of the client library (package [api]). *)
Record api_Mutation : Type := mkMutation {
  SetJson : option string;       (* []byte, [None] the nil slice *)
  DeleteJson : option string;
  Cond : string;
  CommitNow : bool
}.

Inductive api_RespFormat : Type := Request_JSON | Request_RDF.

Record api_Request : Type := mkRequest {
  Query : string;
  Vars : option (gmap string string);
  ReadOnly : bool;
  BestEffort : bool;
  Mutations : list api_Mutation;
  Request_CommitNow : bool;
  RespFormat : api_RespFormat
}.

(** A wire response.  Its payload is kept as what [json.Unmarshal] makes
    of it when asked for a [map[string]interface{}]: a syntax error or
    the keyed values. *)
Record api_Response : Type := mkApiResponse {
  Json : error + gmap string JSON
}.

(** The transaction and the client of the execution layer, external to
    the package: the records of what their methods answer.  [Discard],
    which is deferred on every path, answers nothing. *)
Record Txn : Type := mkTxn {
  Do : api_Request -> error + api_Response;
  QueryWithVars : string -> option (gmap string string) -> error + api_Response;
  Commit : option error
}.

Record Dgraph : Type := mkDgraph {
  NewTxn : Txn;
  NewReadOnlyTxn : Txn
}.

Record DGoExecutor : Type := mkDGoExecutor {
  client : option Dgraph;
  tnx : option Txn;
  readOnly : bool;
  bestEffort : bool
}.

(** Modelled from the spec: the struct [MutationBuilder], declared
    outside the sources at hand: an optional condition, an attached query
    (a struct value, which the executor collects from every unit) and
    optional set and delete data.  A datum is kept as what [json.Marshal]
    returns for it. *)
Record MutationBuilder : Type := mkMutationBuilder {
  condition : option DQLizer;
  query : QueryBuilder;
  setData : option (error + string);
  delData : option (error + string)
}.

Definition is_Some_b {A} (o : option A) : bool :=
  match o with Some _ => true | None => false end.

Definition emptyQueryBlock : string := "query () {  }".

(** Modelled from the spec: [IsEmptyQuery], which is outside the sources
    at hand: a query text is semantically empty when it has no root
    operation, that is, when nothing but spaces stands between the braces
    of its block, whatever the name and the declarations before it. *)
Fixpoint blank_block (rest : string) : bool :=
  match rest with
  | EmptyString => false
  | String c rest' =>
      if Ascii.eqb c " " then blank_block rest'
      else Ascii.eqb c "}" && String.eqb rest' ""
  end.

Fixpoint IsEmptyQuery (query : string) : bool :=
  match query with
  | EmptyString => false
  | String c rest => if Ascii.eqb c "{" then blank_block rest else IsEmptyQuery rest
  end.

Record Response : Type := mkResponse {
  Raw : api_Response;
  dataKeyPath : string
}.

(** The cells the decode destinations designate. *)
Abbreviation Store := (gmap nat GoValue).

(** [reflect.Value.String]: the string itself for a string, and the
    type between angle brackets for anything else. *)
Definition reflect_String (from : JSON) : string :=
  match from with
  | JNull => "<invalid Value>"
  | JBool _ => "<bool Value>"
  | JNumber _ => "<float64 Value>"
  | JString s => s
  | JArray _ => "<[]interface {} Value>"
  | JObject _ => "<map[string]interface {} Value>"
  end.

(** [reflect.Value.Interface] on a generic value. *)
Definition reflect_Interface (from : JSON) : GoValue :=
  match from with
  | JNull => VNil
  | JBool b => VBool b
  | JNumber shown => VFloat64 shown
  | JString s => VString s
  | JArray _ => VOther "[]interface {}"
  | JObject _ => VOther "map[string]interface {}"
  end.

(** The decode hook [Response.Unmarshal] installs. *)
Definition DecodeHook : DecodeHookFunc := fun from to =>
  match to with
  | TimeType =>
      match Parse_RFC3339 (reflect_String from) with
      | inl err => inl err
      | inr t => inr (VTime t)
      end
  | OtherType => inr (reflect_Interface from)
  end.

Definition Unmarshal (response : Response) (value : Dest) (st : Store)
    : Store * option error :=
  match Json (Raw response) with
  | inl err => (st, Some err)
  | inr values =>
      if negb (dest_is_ptr value) then (st, Some (Err "result must be a pointer"))
      else
        let input :=
          if negb (String.eqb (dataKeyPath response) "")
          then default JNull (values !! dataKeyPath response)
          else JObject (map_to_list values) in
        let '(content, err) :=
          dest_decode value DecodeHook input (default VNil (st !! dest_addr value)) in
        (<[dest_addr value := content]> st, err)
  end.

(** The loop of [toResponse] over the renamed queries. *)
Fixpoint toResponse_loop (resp : api_Response) (queries : list QueryBuilder)
    (st : Store) : Store * option error :=
  match queries with
  | [] => (st, None)
  | queryBuilder :: rest =>
      match unmarshalInto queryBuilder with
      | None => toResponse_loop resp rest st
      | Some into =>
          let singleResponse :=
            {| dataKeyPath := Name (rootEdge queryBuilder); Raw := resp |} in
          match Unmarshal singleResponse into st with
          | (st', Some err) => (st', Some err)
          | (st', None) => toResponse_loop resp rest st'
          end
      end
  end.

(** What the executor's methods return: a pointer to a [Response], nil on
    failure, and an error. *)
Definition Executed : Type := option Response * option error.

Definition toResponse (resp : api_Response) (queries : list QueryBuilder)
    (st : Store) : Store * Executed :=
  let dataPathKey :=
    match queries with
    | [only] => Name (rootEdge only)
    | _ => ""
    end in
  let queryResponse := {| dataKeyPath := dataPathKey; Raw := resp |} in
  let queries := ensureUniqueQueryNames queries in
  match toResponse_loop resp queries st with
  | (st', Some err) => (st', (None, Some err))
  | (st', None) => (st', (Some queryResponse, None))
  end.

Definition mutationData (mutation : MutationBuilder)
    : option string * option string * option error :=
  match
    match setData mutation with
    | Some data =>
        match data with
        | inl err => inl err
        | inr setBytes => inr (Some setBytes)
        end
    | None => inr None
    end
  with
  | inl err => (None, None, Some err)
  | inr setDataBytes =>
      match delData mutation with
      | Some (inl err) => (None, None, Some err)
      | Some (inr deleteBytes) => (setDataBytes, Some deleteBytes, None)
      | None => (setDataBytes, None, None)
      end
  end.

Definition ensureClient (executor : DGoExecutor) : option error :=
  match client executor with
  | None => Some (Err "cannot execute query without setting a dqlx. use DClient() to set one")
  | Some _ => None
  end.

Definition getTnx (executor : DGoExecutor) : outcome Txn :=
  match tnx executor with
  | Some tx => Ok tx
  | None =>
      match client executor with
      | None => Panic "invalid memory address or nil pointer dereference"
      | Some c => Ok (if readOnly executor then NewReadOnlyTxn c else NewTxn c)
      end
  end.

(** [ExecuteQueries].  The store of decode destinations goes in and
    comes out. *)
Definition ExecuteQueries (executor : DGoExecutor) (queries : list QueryBuilder)
    (st : Store) : outcome (Store * Executed) :=
  match ensureClient executor with
  | Some err => Ok (st, (None, Some err))
  | None =>
      '(query, variables, err) ← QueriesToDQL queries;
      match err with
      | Some e => Ok (st, (None, Some e))
      | None =>
          tx ← getTnx executor;
          match QueryWithVars tx query variables with
          | inl e => Ok (st, (None, Some e))
          | inr resp =>
              match (if readOnly executor then None else Commit tx) with
              | Some e => Ok (st, (None, Some e))
              | None => Ok (toResponse resp queries st)
              end
          end
      end
  end.

(** The loop of [ExecuteMutations] over the units: the attached queries
    and the mutation requests so far go in; an error ends the call. *)
Fixpoint ExecuteMutations_units (executor : DGoExecutor)
    (mutations : list MutationBuilder) (queries : list QueryBuilder)
    (mutationRequests : list api_Mutation)
    : error + list QueryBuilder * list api_Mutation :=
  match mutations with
  | [] => inr (queries, mutationRequests)
  | mutation :: rest =>
      match
        match condition mutation with
        | Some cond =>
            let '(mkDQLOut conditionDql _ err) := ToDQL cond in
            match err with
            | Some e => inl e
            | None => inr conditionDql
            end
        | None => inr ""
        end
      with
      | inl e => inl e
      | inr condition =>
          let queries := (queries ++ [query mutation])%list in
          let '(setData, deleteData, err) := mutationData mutation in
          match err with
          | Some e => inl e
          | None =>
              let mutationRequest :=
                {| SetJson := setData;
                   DeleteJson := deleteData;
                   Cond := condition;
                   CommitNow := negb (is_Some_b (tnx executor)) |} in
              ExecuteMutations_units executor rest queries
                (mutationRequests ++ [mutationRequest])%list
          end
      end
  end.

(** [ExecuteMutations] up to the wire request it hands to the transaction,
    together with the attached queries. *)
Definition ExecuteMutations_request (executor : DGoExecutor)
    (mutations : list MutationBuilder)
    : outcome (error + api_Request * list QueryBuilder) :=
  match ensureClient executor with
  | Some err => Ok (inl err)
  | None =>
      match ExecuteMutations_units executor mutations [] [] with
      | inl e => Ok (inl e)
      | inr (queries, mutationRequests) =>
          '(query, variables, err) ← QueriesToDQL queries;
          let '(query, variables) :=
            if IsEmptyQuery query then ("", None) else (query, variables) in
          Ok (inr ({| Query := query;
                      Vars := variables;
                      ReadOnly := readOnly executor;
                      BestEffort := bestEffort executor;
                      Mutations := mutationRequests;
                      Request_CommitNow := negb (is_Some_b (tnx executor));
                      RespFormat := Request_JSON |}, queries))
      end
  end.

Definition ExecuteMutations (executor : DGoExecutor)
    (mutations : list MutationBuilder) (st : Store) : outcome (Store * Executed) :=
  prepared ← ExecuteMutations_request executor mutations;
  match prepared with
  | inl err => Ok (st, (None, Some err))
  | inr (request, queries) =>
      tx ← getTnx executor;
      match Do tx request with
      | inl err => Ok (st, (None, Some err))
      | inr resp => Ok (toResponse resp queries st)
      end
  end.

End Dqlx.

(** ** Notions the statements are written with *)

Module DqlxSpec.

Import GoStrings GoTime Dqlx.

Definition is_marker (a b : ascii) : bool := Ascii.eqb "?" a && Ascii.eqb "?" b.

(** The markers of a text, read from the left: a marker is two question
    marks, and the scan resumes after it. *)
Fixpoint count_markers (s : string) : nat :=
  match s with
  | EmptyString => 0
  | String a s' =>
      match s' with
      | EmptyString => 0
      | String b s'' => if is_marker a b then S (count_markers s'') else count_markers s'
      end
  end.

(** The text with its markers replaced, from the left, by [ref i],
    [ref (i+1)], and so on. *)
Fixpoint number_markers (ref : nat -> string) (s : string) (i : nat) : string :=
  match s with
  | EmptyString => EmptyString
  | String a s' =>
      match s' with
      | EmptyString => s
      | String b s'' =>
          if is_marker a b then ref i ++ number_markers ref s'' (S i)
          else String a (number_markers ref s' i)
      end
  end.

(** The named reference [$i]. *)
Definition dollar (i : nat) : string := "$" ++ fmt_d i.

(** The variable table that holds the first [n] arguments from position
    [i] on, each under its position. *)
Fixpoint table_from (args : list GoValue) (i n : nat) (variables : gmap nat GoValue)
    : gmap nat GoValue :=
  match n with
  | O => variables
  | S n' => table_from args (S i) n' (<[i := default VNil (args !! i)]> variables)
  end.

(** The declaration [$i:type] of position [i]. *)
Definition declaration (args : list GoValue) (i : nat) : string :=
  dollar i ++ ":" ++ goTypeToDQLType (default VNil (args !! i)).

(** The compiled texts and the collected arguments of a list of operations. *)
Definition texts_of (ops : list Operation) : list string :=
  (fun op => out_query (ToDQL (asDQLizer op))) <$> ops.

Definition args_of (ops : list Operation) : list GoValue :=
  ops ≫= (fun op => out_args (ToDQL (asDQLizer op))).

(** The root operations and the auxiliary variable operations of a list
    of queries, in order. *)
Definition roots_of (queries : list QueryBuilder) : list Operation :=
  (fun q => edge_Operation (rootEdge q)) <$> queries.

Definition auxiliaries_of (queries : list QueryBuilder) : list Operation :=
  queries ≫= (fun q => (fun v => edge_Operation (rootEdge v)) <$> query_variables q).

Definition names_of (queries : list QueryBuilder) : list string :=
  (fun q => Name (rootEdge q)) <$> queries.

(** No entry already has the name that a later entry would be renamed to. *)
Definition no_generated_name_taken (names : list string) : Prop :=
  forall i j ni nj,
    names !! i = Some ni -> names !! j = Some nj -> (j < i)%nat ->
    nj <> ni ++ "_" ++ fmt_d i.

(** The characters of a string are all decimal digits. *)
Fixpoint all_digits (s : string) : Prop :=
  match s with
  | EmptyString => True
  | String c s' => is_digit c = true /\ all_digits s'
  end.

(** A name is marked in the table of names seen. *)
Definition taken (seen : gmap string bool) (name : string) : Prop :=
  default false (seen !! name) = true.

(** Two edges, and two queries, with the same content as far as
    compilation can tell: the same names and the same compiled output. *)
Definition same_edge (e1 e2 : edge) : Prop :=
  Name e1 = Name e2 /\ forall n, edge_compile e1 n = edge_compile e2 n.

Definition same_tree (q1 q2 : QueryBuilder) : Prop :=
  same_edge (rootEdge q1) (rootEdge q2)
  /\ Forall2 (fun v1 v2 => same_edge (rootEdge v1) (rootEdge v2))
             (query_variables q1) (query_variables q2).

(** A destination of type [*time.Time], as the structural decoder treats
    it: a nil input leaves it alone; otherwise the hook is asked with the
    time type, and the time it returns is stored. *)
Definition timeDest (addr : nat) : Dest :=
  {| dest_addr := addr;
     dest_is_ptr := true;
     dest_decode := fun hook input old =>
       match input with
       | JNull => (old, None)
       | _ =>
           match hook input TimeType with
           | inl err => (old, Some err)
           | inr (VTime t) => (VTime t, None)
           | inr _ => (old, Some (Err "expected a map, got another kind"))
           end
       end |}.

(** A destination of type [*interface{}]: whatever the hook returns is
    stored. *)
Definition anyDest (addr : nat) : Dest :=
  {| dest_addr := addr;
     dest_is_ptr := true;
     dest_decode := fun hook input old =>
       match input with
       | JNull => (old, None)
       | _ =>
           match hook input OtherType with
           | inl err => (old, Some err)
           | inr v => (v, None)
           end
       end |}.

(** A mutation unit with the arguments of its condition replaced. *)
Definition with_condition_args (f : list GoValue -> list GoValue)
    (mutation : MutationBuilder) : MutationBuilder :=
  {| condition :=
       (fun cond =>
          {| ToDQL := {| out_query := out_query (ToDQL cond);
                         out_args := f (out_args (ToDQL cond));
                         out_err := out_err (ToDQL cond) |} |}) <$> condition mutation;
     query := query mutation;
     setData := setData mutation;
     delData := delData mutation |}.

(** The condition text of a unit as its condition compiles it. *)
Definition condition_text (mutation : MutationBuilder) : string :=
  match condition mutation with
  | Some cond => out_query (ToDQL cond)
  | None => ""
  end.

(** The civil year of a time in its own location. *)
Definition year_of (t : Time) : Z :=
  (fst (fst (civil_from_days ((unixSec t + offset t) / secondsPerDay + unixEpochDay))))%Z.

(** Days of the year before the first of a month. *)
Definition daysBeforeMonth (year month : Z) : Z :=
  (daysBefore month + (if isLeap year && (3 <=? month) then 1 else 0))%Z.

(** The mutation request of a unit whose condition compiles and whose
    data marshal. *)
Definition request_of (executor : DGoExecutor) (mutation : MutationBuilder) : api_Mutation :=
  {| SetJson := (mutationData mutation).1.1;
     DeleteJson := (mutationData mutation).1.2;
     Cond := condition_text mutation;
     CommitNow := negb (is_Some_b (tnx executor)) |}.

(** The wire request of a batch, given what the query assembler made of
    the attached queries. *)
Definition request_for (executor : DGoExecutor) (mutations : list MutationBuilder)
    (text : string) (vars : option (gmap string string)) : api_Request :=
  {| Query := if IsEmptyQuery text then "" else text;
     Vars := if IsEmptyQuery text then None else vars;
     ReadOnly := readOnly executor;
     BestEffort := bestEffort executor;
     Mutations := request_of executor <$> mutations;
     Request_CommitNow := negb (is_Some_b (tnx executor));
     RespFormat := Request_JSON |}.

(** Every byte of a string is an ASCII character. *)
Fixpoint ascii_only (s : string) : Prop :=
  match s with
  | EmptyString => True
  | String c s' => (code c < 128)%N /\ ascii_only s'
  end.

(** The two cases of a letter, read off the alphabet: the letter at the
    same place in the other alphabet, and any other character itself. *)
Definition small_letters : string := "abcdefghijklmnopqrstuvwxyz".
Definition capital_letters : string := "ABCDEFGHIJKLMNOPQRSTUVWXYZ".

Fixpoint at_same_place (these those : string) (c : ascii) : ascii :=
  match these, those with
  | String a these', String b those' =>
      if Ascii.eqb c a then b else at_same_place these' those' c
  | _, _ => c
  end.

Definition small (c : ascii) : ascii := at_same_place capital_letters small_letters c.
Definition capital (c : ascii) : ascii := at_same_place small_letters capital_letters c.

Fixpoint occurs_in (s : string) (c : ascii) : bool :=
  match s with
  | EmptyString => false
  | String a s' => Ascii.eqb c a || occurs_in s' c
  end.

(** A character of a word: a letter, a digit or the underscore. *)
Definition in_word (c : ascii) : bool :=
  occurs_in (small_letters ++ capital_letters ++ "0123456789_") c.

(** A name in title case, as the document has it: the first character of
    each word is a capital, every other letter is small. *)
Fixpoint title_cased_from (first : bool) (s : string) : string :=
  match s with
  | EmptyString => EmptyString
  | String c s' =>
      String (if first then capital c else small c) (title_cased_from (negb (in_word c)) s')
  end.

Definition title_cased (s : string) : string := title_cased_from true s.


(** The characters of a string are all spaces. *)
Fixpoint spaces_only (s : string) : Prop :=
  match s with
  | EmptyString => True
  | String c s' => c = " "%char /\ spaces_only s'
  end.


End DqlxSpec.

(** ** Inputs the statements are tried on *)

Module DqlxExamples.

Import GoStrings GoTime Dqlx DqlxSpec.

(** A root edge that filters on a name: one marker, one argument. *)
Definition by_name (name : string) (args : list GoValue) : edge :=
  {| Name := name;
     edge_compile := fun name =>
       {| out_query := name ++ "(func: eq(name, ??)) { uid }";
          out_args := args;
          out_err := None |} |}.

(** A root edge without arguments. *)
Definition all_of (name : string) : edge :=
  {| Name := name;
     edge_compile := fun name =>
       {| out_query := name ++ "(func: has(name)) { uid }";
          out_args := [];
          out_err := None |} |}.

(** A root edge whose compilation fails. *)
Definition broken : edge :=
  {| Name := "broken";
     edge_compile := fun _ =>
       {| out_query := ""; out_args := []; out_err := Some (Err "edge cannot be compiled") |} |}.

(** A root edge with no name that compiles to nothing. *)
Definition blank : edge :=
  {| Name := "";
     edge_compile := fun _ => {| out_query := ""; out_args := []; out_err := None |} |}.

Definition query_of (root : edge) (into : option Dest) : QueryBuilder :=
  {| rootEdge := root; query_variables := []; unmarshalInto := into |}.

Definition person (args : list GoValue) : QueryBuilder :=
  query_of (by_name "person" args) None.

Definition named (name : string) : QueryBuilder := query_of (all_of name) None.

(** The document of two queries named person, one argument each. *)
Definition two_people_document : string :=
  "query Person_Person_1($0:string, $1:int) { "
  ++ "person(func: eq(name, $0)) { uid } person_1(func: eq(name, $1)) { uid } }".

Definition decoding (name : string) (into : Dest) : QueryBuilder :=
  query_of (all_of name) (Some into).

Definition payload : api_Response :=
  {| Json := inr (<["joined" := JString "yesterday"]> (<["who" := JString "Ann"]> ∅)) |}.

(** A transaction that answers every request with [payload], and an
    executor on a client that hands it out. *)
Definition accepting : Txn :=
  {| Do := fun _ => inr payload;
     QueryWithVars := fun _ _ => inr payload;
     Commit := None |}.

Definition ready : DGoExecutor :=
  {| client := Some {| NewTxn := accepting; NewReadOnlyTxn := accepting |};
     tnx := None;
     readOnly := false;
     bestEffort := false |}.

(** A condition with one marker and its argument. *)
Definition guard : DQLizer :=
  {| ToDQL := {| out_query := "@if(eq(len(v), ??))";
                 out_args := [VInt 1];
                 out_err := None |} |}.

Definition unit_of (cond : option DQLizer) (attached : QueryBuilder) : MutationBuilder :=
  {| condition := cond;
     query := attached;
     setData := Some (inr "{}");
     delData := None |}.

Definition half_past : Time :=
  {| unixSec := 1609545600; nsec := 500000000; offset := 0 |}.

Definition on_the_second : Time :=
  {| unixSec := 1609545600; nsec := 0; offset := 3600 |}.

End DqlxExamples.

(** ** The rest of the executor file, and notions for its properties *)

Module DqlxMore.
Import GoStrings Dqlx DqlxSpec DqlxExamples.

(** [ExecutorOptionFn]: an option sets one field of the executor it is
    applied to. *)
Definition ExecutorOptionFn : Type := DGoExecutor -> DGoExecutor.

Definition WithTnx (tnx : option Txn) : ExecutorOptionFn := fun executor =>
  {| client := client executor; tnx := tnx;
     readOnly := readOnly executor; bestEffort := bestEffort executor |}.

Definition WithClient (client : option Dgraph) : ExecutorOptionFn := fun executor =>
  {| client := client; tnx := Dqlx.tnx executor;
     readOnly := readOnly executor; bestEffort := bestEffort executor |}.

Definition WithReadOnly (readOnly : bool) : ExecutorOptionFn := fun executor =>
  {| client := client executor; tnx := tnx executor;
     readOnly := readOnly; bestEffort := bestEffort executor |}.

Definition WithBestEffort (bestEffort : bool) : ExecutorOptionFn := fun executor =>
  {| client := client executor; tnx := tnx executor;
     readOnly := readOnly executor; bestEffort := bestEffort |}.

(** [NewDGoExecutor]: the other fields have their zero values. *)
Definition NewDGoExecutor (client : option Dgraph) : DGoExecutor :=
  {| client := client; tnx := None; readOnly := false; bestEffort := false |}.

(** A part compiles without error. *)
Definition compiles (part : DQLizer) : Prop := out_err (ToDQL part) = None.

(** The error on which the loop of [ExecuteMutations] leaves a unit: that
    of its condition, or else that of marshalling its data. *)
Definition unit_error (mutation : MutationBuilder) : option error :=
  match condition mutation with
  | Some cond =>
      match out_err (ToDQL cond) with
      | Some e => Some e
      | None => (mutationData mutation).2
      end
  | None => (mutationData mutation).2
  end.

(** The key path of the response [toResponse] returns: the name of the
    only query, or none. *)
Definition key_path_of (queries : list QueryBuilder) : string :=
  match queries with
  | [only] => Name (rootEdge only)
  | _ => ""
  end.

(** A query with the auxiliary queries of its auxiliary queries, and its
    own and their decode destinations, taken away. *)
Definition pruned (q : QueryBuilder) : QueryBuilder :=
  {| rootEdge := rootEdge q;
     query_variables :=
       (fun v => {| rootEdge := rootEdge v; query_variables := []; unmarshalInto := None |})
         <$> query_variables q;
     unmarshalInto := None |}.

(** No character of a string is a question mark. *)
Fixpoint no_question_mark (s : string) : Prop :=
  match s with
  | EmptyString => True
  | String c s' => c <> "?"%char /\ no_question_mark s'
  end.

(** Inputs for the properties below. *)
Definition nil_time_query : QueryBuilder :=
  query_of (by_name "since" [VTimePtr None]) None.

Definition starved_query : QueryBuilder :=
  query_of (by_name "person" []) None.

Definition with_auxiliary (aux : QueryBuilder) : QueryBuilder :=
  {| rootEdge := all_of "people"; query_variables := [aux]; unmarshalInto := None |}.

Definition unparsable : api_Response :=
  {| Json := inl (Err "unexpected end of JSON input") |}.

Definition refusing : Txn :=
  {| Do := fun _ => inl (Err "transaction refused");
     QueryWithVars := fun _ _ => inl (Err "transaction refused");
     Commit := Some (Err "commit refused") |}.

Definition unmarshalable : MutationBuilder :=
  {| condition := None;
     query := query_of blank None;
     setData := Some (inl (Err "json: unsupported type"));
     delData := None |}.

(** A unit neither of whose data can be marshalled, each for a reason of
    its own. *)
Definition twice_unmarshalable : MutationBuilder :=
  {| condition := None;
     query := query_of blank None;
     setData := Some (inl (Err "json: unsupported type"));
     delData := Some (inl (Err "json: unsupported value")) |}.

End DqlxMore.

(** ** Runs of the assembler

    Go ranges over a map in an order that is not specified and that
    differs from one run to the next.  The one map query assembly ranges
    over is the variable table, when [getSortedVariables] collects its
    indices.  Here the order a run ranges over a table in is a parameter
    of the assembler. *)

Module DqlxRuns.

Import GoStrings Dqlx.








End DqlxRuns.

(* ===================================================================== *)
(** * Part II: properties                                                 *)
(* ===================================================================== *)

(** ** Markers and their replacement *)

Module MarkerFacts.
Import GoStrings Dqlx DqlxSpec.

Lemma append_cons (x : ascii) (a b : string) : String x a ++ b = String x (a ++ b).
Proof. reflexivity. Qed.

Lemma append_nil_l (b : string) : "" ++ b = b.
Proof. reflexivity. Qed.

Lemma append_assoc (a b c : string) : (a ++ b) ++ c = a ++ (b ++ c).
Proof.
  induction a as [|x a IH]; [done|].
  rewrite !append_cons. by rewrite IH.
Qed.

Lemma append_nil_r (a : string) : a ++ "" = a.
Proof.
  induction a as [|x a IH]; [done|].
  rewrite append_cons. by rewrite IH.
Qed.

Lemma prefix_marker (s : string) :
  HasPrefix s "??" =
  match s with
  | String a (String b _) => is_marker a b
  | _ => false
  end.
Proof.
  destruct s as [|a [|b s]]; cbn [HasPrefix]; try done.
  - by rewrite ?andb_false_r.
  - unfold is_marker. by rewrite ?andb_true_r.
Qed.

Lemma count_markers_step (a b : ascii) (s : string) :
  count_markers (String a (String b s)) =
  if is_marker a b then S (count_markers s) else count_markers (String b s).
Proof. reflexivity. Qed.

Lemma number_markers_step (ref : nat -> string) (a b : ascii) (s : string) (i : nat) :
  number_markers ref (String a (String b s)) i =
  if is_marker a b then ref i ++ number_markers ref s (S i)
  else String a (number_markers ref (String b s) i).
Proof. reflexivity. Qed.

Lemma Index_step (a b : ascii) (s : string) :
  Index (String a (String b s)) "??" =
  if is_marker a b then Some 0%nat else S <$> Index (String b s) "??".
Proof.
  change (Index (String a (String b s)) "??")
    with (if HasPrefix (String a (String b s)) "??" then Some 0%nat
          else S <$> Index (String b s) "??").
  by rewrite prefix_marker.
Qed.

Lemma Index_short (a : ascii) : Index (String a "") "??" = None.
Proof. cbn. by rewrite andb_false_r. Qed.

Lemma Index_marker_None (s : string) :
  Index s "??" = None ->
  count_markers s = 0%nat /\ forall ref i, number_markers ref s i = s.
Proof.
  induction s as [|a s IH]; [done|].
  destruct s as [|b s']; [done|].
  rewrite Index_step, count_markers_step.
  destruct (is_marker a b) eqn:Hm; [done|].
  destruct (Index (String b s') "??") eqn:Hi; [done|].
  intros _. destruct (IH eq_refl) as [Hc Hn].
  split; [done|].
  intros ref i. rewrite number_markers_step, Hm. by rewrite Hn.
Qed.

Lemma Index_marker_Some (s : string) (p : nat) :
  Index s "??" = Some p ->
  count_markers s = S (count_markers (slice_from (p + 2) s))
  /\ (forall ref i, number_markers ref s i =
        slice_to p s ++ ref i ++ number_markers ref (slice_from (p + 2) s) (S i))
  /\ (String.length (slice_from (p + 2) s) + 2 <= String.length s)%nat.
Proof.
  revert p. induction s as [|a s IH]; intros p; [done|].
  destruct s as [|b s']; [by rewrite Index_short|].
  rewrite Index_step, count_markers_step.
  destruct (is_marker a b) eqn:Hm.
  - intros [= <-]. repeat split; try done.
    + intros ref i. by rewrite number_markers_step, Hm.
    + cbn. lia.
  - destruct (Index (String b s') "??") as [p'|] eqn:Hi; [|done].
    intros [= <-].
    destruct (IH p' eq_refl) as (Hc & Hn & Hl).
    change (S p' + 2)%nat with (S (p' + 2)).
    repeat split.
    + exact Hc.
    + intros ref i. rewrite number_markers_step, Hm, Hn. done.
    + change (slice_from (S (p' + 2)) (String a (String b s')))
        with (slice_from (p' + 2) (String b s')).
      change (String.length (String a (String b s')))
        with (S (String.length (String b s'))). lia.
Qed.

Lemma table_from_lookup (args : list GoValue) (n i : nat) (vars : gmap nat GoValue) (j : nat) :
  table_from args i n vars !! j =
  if decide (i <= j < i + n)%nat then Some (default VNil (args !! j)) else vars !! j.
Proof.
  revert i vars. induction n as [|n IH]; intros i vars; cbn [table_from].
  - case_decide; [lia | done].
  - rewrite IH. repeat case_decide; try lia; try done.
    + assert (j = i) as -> by lia. by rewrite lookup_insert_eq.
    + by rewrite lookup_insert_ne by lia.
Qed.

Section Replacement.

Variable args : list GoValue.
Variable transform : nat -> GoValue -> string.

(** The reference that takes the place of the marker of position [k]. *)
Let reference (k : nat) : string := transform k (default VNil (args !! k)).

Lemma replacePlaceholders_loop_spec (fuel : nat) :
  forall (query : string) (i : nat) (buf : string) (vars : gmap nat GoValue),
    (String.length query < fuel)%nat ->
    (i <= List.length args)%nat ->
    replacePlaceholders_loop fuel query args transform i buf vars =
    if decide (i + count_markers query <= List.length args)%nat
    then Ok (buf ++ number_markers reference query i,
             table_from args i (count_markers query) vars)
    else Panic "index out of range".
Proof.
  induction fuel as [|fuel IH]; intros query i buf vars Hfuel Hi; [lia|].
  cbn [replacePlaceholders_loop].
  destruct (Index query "??") as [p|] eqn:Hidx.
  - destruct (Index_marker_Some _ _ Hidx) as (Hc & Hn & Hl).
    rewrite Hc. destruct (args !! i) as [arg|] eqn:Harg.
    + apply lookup_lt_Some in Harg as Hlt.
      rewrite IH by lia.
      repeat case_decide; try lia; [|done].
      f_equal. f_equal.
      * rewrite Hn. unfold reference at 2. rewrite Harg. cbn [default].
        by rewrite !append_assoc.
      * cbn [table_from]. by rewrite Harg.
    + apply lookup_ge_None in Harg. case_decide; [lia | done].
  - destruct (Index_marker_None _ Hidx) as [Hc Hn].
    rewrite Hc, Hn. case_decide; [done | lia].
Qed.

Lemma replacePlaceholders_spec (query : string) :
  replacePlaceholders query args transform =
  if decide (count_markers query <= List.length args)%nat
  then Ok (number_markers reference query 0,
           table_from args 0 (count_markers query) ∅)
  else Panic "index out of range".
Proof.
  unfold replacePlaceholders.
  rewrite replacePlaceholders_loop_spec by lia.
  by rewrite append_nil_l.
Qed.

(** The loop budget of [replacePlaceholders] is never used up. *)
Lemma replacePlaceholders_fuel (query : string) :
  replacePlaceholders query args transform <> OutOfFuel.
Proof. rewrite replacePlaceholders_spec. by case_decide. Qed.

End Replacement.

(** C10.  Placeholder replacement returns exactly when the text has no
    more markers than there are collected arguments.  In that case the
    markers are replaced from the left with [$0], [$1], and so on, and the
    variable table holds the argument of each marker under its index and
    nothing else, so the arguments beyond the number of markers are left
    out.  With more markers than arguments the call indexes past the end
    of the argument list and panics. *)
Theorem replacePlaceholders_total_iff_enough_args (query : string) (args : list GoValue) :
  let k := count_markers query in
  ((k <= List.length args)%nat ->
     exists table,
       replacePlaceholders query args (fun index _ => "$" ++ fmt_d index)
         = Ok (number_markers dollar query 0, table)
       /\ forall j, table !! j = if decide (j < k)%nat then args !! j else None)
  /\ ((List.length args < k)%nat ->
       replacePlaceholders query args (fun index _ => "$" ++ fmt_d index)
         = Panic "index out of range").
Proof.
  intros k. rewrite replacePlaceholders_spec. fold k. split; intros Hk.
  - case_decide; [|lia].
    exists (table_from args 0 k ∅). split; [done|].
    intros j. rewrite table_from_lookup, lookup_empty.
    repeat case_decide; try lia; try done.
    destruct (args !! j) eqn:Hj; [done|].
    apply lookup_ge_None in Hj. lia.
  - case_decide; [lia | done].
Qed.

(** The two cases of C10 on concrete texts: three arguments for two
    markers, and one argument for two markers. *)
Lemma replacePlaceholders_witness :
  (exists table,
     replacePlaceholders "a ?? b ??? c" [VInt 1; VString "x"; VBool true]
       (fun index _ => "$" ++ fmt_d index)
     = Ok ("a $0 b $1? c", table)
     /\ table !! 0%nat = Some (VInt 1) /\ table !! 1%nat = Some (VString "x")
     /\ table !! 2%nat = None)
  /\ replacePlaceholders "?? ??" [VInt 1] (fun index _ => "$" ++ fmt_d index)
     = Panic "index out of range".
Proof.
  split.
  - destruct (proj1 (replacePlaceholders_total_iff_enough_args "a ?? b ??? c"
                       [VInt 1; VString "x"; VBool true]))
      as (table & Heq & Ht); [vm_compute; lia|].
    exists table. split; [exact Heq|].
    split; [exact (Ht 0%nat) | split; [exact (Ht 1%nat) | exact (Ht 2%nat)]].
  - apply (proj2 (replacePlaceholders_total_iff_enough_args "?? ??" [VInt 1])).
    vm_compute; lia.
Defined.
End MarkerFacts.

(** ** The query assembler *)

Module AssemblerFacts.
Import GoStrings Dqlx DqlxSpec DqlxExamples DqlxRuns MarkerFacts.

Lemma StronglySorted_seq (i n : nat) : StronglySorted Nat.le (seq i n).
Proof.
  revert i. induction n as [|n IH]; intros i; cbn [seq]; constructor.
  - apply IH.
  - apply Forall_forall. intros x Hx. apply elem_of_seq in Hx. lia.
Qed.

Lemma table_keys (args : list GoValue) (n : nat) :
  (fst <$> map_to_list (table_from args 0 n ∅)) ≡ₚ seq 0 n.
Proof.
  apply NoDup_Permutation.
  - apply NoDup_fst_map_to_list.
  - apply NoDup_seq.
  - intros j. rewrite elem_of_seq, list_elem_of_fmap. split.
    + intros [[j' v] [-> Hin]]. apply elem_of_map_to_list in Hin.
      rewrite table_from_lookup, lookup_empty in Hin.
      case_decide; [simpl; lia | done].
    + intros Hj. exists (j, default VNil (args !! j)). split; [done|].
      apply elem_of_map_to_list. rewrite table_from_lookup.
      case_decide; [done | lia].
Qed.

Lemma getSortedVariables_table (args : list GoValue) (n : nat) :
  getSortedVariables (table_from args 0 n ∅) = seq 0 n.
Proof.
  unfold getSortedVariables.
  apply (StronglySorted_unique Nat.le).
  - apply StronglySorted_merge_sort; apply _.
  - apply StronglySorted_seq.
  - rewrite merge_sort_Permutation. apply table_keys.
Qed.

Lemma size_table (args : list GoValue) (n : nat) :
  size (table_from args 0 n ∅) = n.
Proof.
  rewrite <- length_map_to_list.
  rewrite <- (length_fmap fst), table_keys. apply length_seq.
Qed.

Lemma raw_lookup_table (args : list GoValue) (n j : nat) :
  (j < n)%nat -> raw_lookup (table_from args 0 n ∅) j = default VNil (args !! j).
Proof.
  intros Hj. unfold raw_lookup. rewrite table_from_lookup.
  case_decide; [done | lia].
Qed.

(** The loop of [toVariables], run over the indices [index .. index+k-1]
    in order, writes the declaration of each of them at its own place. *)
Lemma toVariables_loop_placeholders (raw : gmap nat GoValue) (k : nat) :
  forall (index : nat) (vars : gmap string string) (done_ : list string) v p,
    List.length done_ = index ->
    toVariables_loop raw index (seq index k) vars (done_ ++ replicate k "") = Ok (v, p) ->
    p = (done_ ++ ((fun j => (dollar j ++ ":" ++ goTypeToDQLType (raw_lookup raw j))%string)
                   <$> seq index k))%list.
Proof.
  induction k as [|k IH]; intros index vars done_ v p Hlen.
  - cbn. intros [= _ <-]. done.
  - cbn [seq toVariables_loop replicate].
    destruct (toVariableValue (raw_lookup raw index)) as [value| |]; cbn; try done.
    case_decide as Hlt; [|done].
    rewrite insert_app_r_alt by lia.
    replace (index - List.length done_)%nat with 0%nat by lia.
    change (<[0%nat := ?x]> ("" :: replicate k "")) with (x :: replicate k "").
    rewrite (cons_middle _ done_), app_assoc.
    intros Hloop. apply IH in Hloop.
    + rewrite Hloop, <- app_assoc. done.
    + rewrite length_app. simpl. lia.
Qed.

Lemma toVariables_loop_fuel (raw : gmap nat GoValue) (names : list nat) :
  forall index vars phs, toVariables_loop raw index names vars phs <> OutOfFuel.
Proof.
  induction names as [|n names IH]; intros index vars phs; [done|].
  cbn [toVariables_loop].
  destruct (toVariableValue (raw_lookup raw index)) as [value| |] eqn:Hv; cbn; try done.
  - case_decide; [apply IH | done].
  - destruct (raw_lookup raw index) as [| | | | | | | | | | |t|[t|]|]; done.
Qed.

Lemma toVariables_table (args : list GoValue) (n : nat) v p :
  toVariables (table_from args 0 n ∅) = Ok (v, p) ->
  p = declaration args <$> seq 0 n.
Proof.
  unfold toVariables. rewrite getSortedVariables_table, size_table.
  intros H. apply (toVariables_loop_placeholders _ _ 0%nat _ []) in H; [|done].
  rewrite H. cbn [app]. apply list_fmap_ext.
  intros i j Hj. apply lookup_seq in Hj as [-> Hlt].
  unfold declaration. by rewrite raw_lookup_table by lia.
Qed.

Lemma collect_spec (queries : list QueryBuilder) :
  forall main,
    collect queries main =
    {| operations := operations main ++ roots_of queries;
       variables := variables main ++ auxiliaries_of queries |}.
Proof.
  induction queries as [|q queries IH]; intros main.
  - cbn. rewrite !app_nil_r. by destruct main.
  - cbn [collect]. rewrite IH. cbn [operations variables].
    unfold roots_of, auxiliaries_of. cbn [fmap list_fmap mbind list_bind].
    by rewrite <- !app_assoc.
Qed.

Lemma addStatement_ok (parts : list DQLizer) :
  forall statements args statements' args',
    addStatement parts statements args = (statements', args', None) ->
    statements' = (statements ++ ((fun part => out_query (ToDQL part)) <$> parts))%list
    /\ args' = (args ++ (parts ≫= (fun part => out_args (ToDQL part))))%list.
Proof.
  induction parts as [|part parts IH]; intros statements args statements' args'.
  - cbn. intros [= <- <-]. by rewrite !app_nil_r.
  - cbn [addStatement]. destruct (ToDQL part) as [statement queryArg [e|]] eqn:Hpart.
    + done.
    + intros H. apply IH in H as [-> ->]. cbn.
      rewrite Hpart. cbn. by rewrite <- !app_assoc.
Qed.

Lemma addOperation_ok (ops : list Operation) statements args statements' args' :
  addOperation ops statements args = (statements', args', None) ->
  statements' = (statements ++ texts_of ops)%list
  /\ args' = (args ++ args_of ops)%list.
Proof.
  unfold addOperation. intros H. apply addStatement_ok in H as [-> ->].
  unfold texts_of, args_of. rewrite <- list_fmap_compose.
  split; [done|]. f_equal.
  induction ops as [|op ops IH]; [done|]. cbn. by rewrite IH.
Qed.

Lemma addStatement_err (parts : list DQLizer) :
  forall statements args statements' args' e,
    addStatement parts statements args = (statements', args', Some e) ->
    exists part, part ∈ parts /\ out_err (ToDQL part) = Some e.
Proof.
  induction parts as [|part parts IH]; intros statements args statements' args' e.
  - done.
  - cbn [addStatement]. destruct (ToDQL part) as [statement queryArg [e'|]] eqn:Hpart.
    + intros [= _ _ ->]. exists part. rewrite Hpart. split; [left | done].
    + intros H. apply IH in H as (part' & Hin & He).
      exists part'. split; [by right | done].
Qed.

(** *** The document

    The form of the document [queryOperation.ToDQL] emits. *)
Lemma queryOperation_ToDQL_document (grammar : queryOperation) text vars :
  queryOperation_ToDQL grammar = Ok (text, vars, None) ->
  let ops := (variables grammar ++ operations grammar)%list in
  let inner := Join (texts_of ops) " " in
  text = "query "
         ++ Join ((fun op => Title (ToLower (GetName op))) <$> operations grammar) "_"
         ++ "("
         ++ Join (declaration (args_of ops) <$> seq 0 (count_markers inner)) ", "
         ++ ") {" ++ " " ++ number_markers dollar inner 0 ++ " }".
Proof.
  unfold queryOperation_ToDQL.
  destruct (addOperation (variables grammar) [] []) as [[st1 ar1] [e1|]] eqn:H1; [done|].
  apply addOperation_ok in H1 as [-> ->].
  destruct (addOperation (operations grammar) _ _) as [[st2 ar2] [e2|]] eqn:H2; [done|].
  apply addOperation_ok in H2 as [-> ->].
  cbn [app]. unfold texts_of, args_of.
  rewrite <- fmap_app, <- bind_app.
  rewrite replacePlaceholders_spec.
  case_decide as Hk; [|done].
  cbn [mbind outcome_bind].
  destruct (toVariables _) as [[v p]| |] eqn:Hv; try done.
  apply toVariables_table in Hv as ->.
  intros [= <- _].
  by rewrite !append_assoc.
Qed.
Lemma queryOperation_ToDQL_fuel (grammar : queryOperation) :
  queryOperation_ToDQL grammar <> OutOfFuel.
Proof.
  unfold queryOperation_ToDQL.
  destruct (addOperation (variables grammar) [] []) as [[st1 ar1] [e1|]]; [done|].
  destruct (addOperation (operations grammar) _ _) as [[st2 ar2] [e2|]]; [done|].
  rewrite replacePlaceholders_spec. case_decide; [|done].
  cbn [mbind outcome_bind]. unfold toVariables.
  destruct (toVariables_loop _ _ _ _ _) as [[v p]| |] eqn:Hv; try done.
  by apply toVariables_loop_fuel in Hv.
Qed.

(** The loop budget is never used up in query assembly. *)
Lemma QueriesToDQL_fuel (queries : list QueryBuilder) :
  QueriesToDQL queries <> OutOfFuel.
Proof. apply queryOperation_ToDQL_fuel. Qed.

(** On failure the assembler returns no text and no variable map. *)
Lemma QueriesToDQL_error (queries : list QueryBuilder) text vars e :
  QueriesToDQL queries = Ok (text, vars, Some e) -> text = "" /\ vars = None.
Proof.
  unfold QueriesToDQL, queryOperation_ToDQL.
  destruct (addOperation (variables _) [] []) as [[st1 ar1] [e1|]]; [by intros [= <- <- _]|].
  destruct (addOperation (operations _) _ _) as [[st2 ar2] [e2|]]; [by intros [= <- <- _]|].
  destruct (replacePlaceholders _ _ _) as [[q raw]| |]; cbn; try done.
  destruct (toVariables raw) as [[v p]| |]; cbn; done.
Qed.

Lemma same_edge_Operation (e1 e2 : edge) :
  same_edge e1 e2 -> edge_Operation e1 = edge_Operation e2.
Proof.
  intros [Hn Hc]. unfold edge_Operation, edge_ToDQL, edge_GetName.
  by rewrite Hn, Hc.
Qed.

Lemma same_tree_rename (q1 q2 : QueryBuilder) (name : string) :
  same_tree q1 q2 -> same_tree (QueryBuilder_Name q1 name) (QueryBuilder_Name q2 name).
Proof. intros [[Hn Hc] Hv]. split; [split|]; done. Qed.

Lemma ensureUniqueQueryNames_from_same (qs1 qs2 : list QueryBuilder) :
  Forall2 same_tree qs1 qs2 ->
  forall index seen,
    Forall2 same_tree (ensureUniqueQueryNames_from index seen qs1)
                      (ensureUniqueQueryNames_from index seen qs2).
Proof.
  induction 1 as [|q1 q2 qs1 qs2 Hq Hqs IH]; intros index seen; cbn [ensureUniqueQueryNames_from].
  - constructor.
  - destruct Hq as [[Hn Hc] Hv]. rewrite <- Hn.
    destruct (default false (seen !! Name (rootEdge q1))).
    + constructor; [by apply same_tree_rename | apply IH].
    + constructor; [done | rewrite <- Hn; apply IH].
Qed.

Lemma same_tree_roots (qs1 qs2 : list QueryBuilder) :
  Forall2 same_tree qs1 qs2 -> roots_of qs1 = roots_of qs2.
Proof.
  induction 1 as [|q1 q2 qs1 qs2 [Hq _] _ IH]; [done|].
  unfold roots_of in *. cbn. by rewrite IH, (same_edge_Operation _ _ Hq).
Qed.

Lemma same_tree_auxiliaries (qs1 qs2 : list QueryBuilder) :
  Forall2 same_tree qs1 qs2 -> auxiliaries_of qs1 = auxiliaries_of qs2.
Proof.
  induction 1 as [|q1 q2 qs1 qs2 [_ Hv] _ IH]; [done|].
  unfold auxiliaries_of in *. cbn. rewrite IH. f_equal.
  induction Hv as [|v1 v2 vs1 vs2 Hv _ IHv]; [done|].
  cbn. by rewrite IHv, (same_edge_Operation _ _ Hv).
Qed.

(** *** The uniqueness step *)

Lemma ensureUniqueQueryNames_from_length (queries : list QueryBuilder) :
  forall index seen,
    List.length (ensureUniqueQueryNames_from index seen queries) = List.length queries.
Proof.
  induction queries as [|q queries IH]; intros index seen; [done|].
  cbn [ensureUniqueQueryNames_from List.length]. by rewrite IH.
Qed.

(** An entry keeps its name or gets it extended by an underscore and its
    position. *)
Lemma ensureUniqueQueryNames_from_names (queries : list QueryBuilder) :
  forall index seen i q',
    ensureUniqueQueryNames_from index seen queries !! i = Some q' ->
    exists q,
      queries !! i = Some q
      /\ (Name (rootEdge q') = Name (rootEdge q)
          \/ Name (rootEdge q') = Name (rootEdge q) ++ "_" ++ fmt_d (index + i)).
Proof.
  induction queries as [|q queries IH]; intros index seen i q'; [done|].
  cbn [ensureUniqueQueryNames_from]. destruct i as [|i].
  - intros [= <-]. exists q. split; [done|].
    replace (index + 0)%nat with index by lia.
    destruct (default false (seen !! Name (rootEdge q))); [by right | by left].
  - intros H. apply IH in H as (q0 & Hq0 & Hname).
    exists q0. split; [done|].
    by replace (index + S i)%nat with (S index + i)%nat by lia.
Qed.

Lemma pretty_N_char_digit (x : N) : is_digit (pretty_N_char x) = true.
Proof. unfold pretty_N_char. by repeat case_match. Qed.

Lemma pretty_N_go_digits (x : N) :
  forall s, all_digits s -> all_digits (pretty_N_go x s).
Proof.
  induction (N.lt_wf_0 x) as [x _ IH]; intros s Hs.
  assert (x = 0 \/ 0 < x)%N as [->|Hx] by lia.
  - by rewrite pretty_N_go_0.
  - rewrite pretty_N_go_step by done. apply IH.
    + by apply N.div_lt.
    + split; [apply pretty_N_char_digit | done].
Qed.

Lemma fmt_d_digits (n : nat) : all_digits (fmt_d n).
Proof.
  unfold fmt_d, pretty, pretty_nat, pretty, pretty_N.
  case_decide; [by repeat split|].
  by apply pretty_N_go_digits.
Qed.

Lemma all_digits_no_underscore (a d : string) :
  ~ all_digits (a ++ "_" ++ d).
Proof.
  induction a as [|c a IH].
  - change ("" ++ "_" ++ d) with (String "_" d). by intros [? _].
  - change (String c a ++ "_" ++ d) with (String c (a ++ "_" ++ d)).
    intros [_ H]. by apply IH.
Qed.

(** Two generated names are equal only for the same position. *)
Lemma generated_name_inj (a b d e : string) :
  all_digits d -> all_digits e ->
  a ++ "_" ++ d = b ++ "_" ++ e -> a = b /\ d = e.
Proof.
  intros Hd He. revert b. induction a as [|c a IH]; intros [|c' b].
  - change ("" ++ "_" ++ d) with (String "_" d).
    change ("" ++ "_" ++ e) with (String "_" e). by intros [= ->].
  - change ("" ++ "_" ++ d) with (String "_" d).
    change (String c' b ++ "_" ++ e) with (String c' (b ++ "_" ++ e)).
    intros [= <- ->]. by apply all_digits_no_underscore in Hd.
  - change ("" ++ "_" ++ e) with (String "_" e).
    change (String c a ++ "_" ++ d) with (String c (a ++ "_" ++ d)).
    intros [= -> <-]. by apply all_digits_no_underscore in He.
  - change (String c a ++ "_" ++ d) with (String c (a ++ "_" ++ d)).
    change (String c' b ++ "_" ++ e) with (String c' (b ++ "_" ++ e)).
    intros [= -> H]. apply IH in H as [-> ->]. done.
Qed.

Lemma generated_name_index (a b : string) (i j : nat) :
  a ++ "_" ++ fmt_d i = b ++ "_" ++ fmt_d j -> i = j.
Proof.
  intros H. apply generated_name_inj in H as [_ Hd]; try apply fmt_d_digits.
  by apply (inj pretty) in Hd.
Qed.

Lemma taken_insert (seen : gmap string bool) (name name' : string) :
  taken (<[name := true]> seen) name' <-> name = name' \/ taken seen name'.
Proof.
  unfold taken. destruct (decide (name = name')) as [->|Hne].
  - rewrite lookup_insert_eq. split; [by left | done].
  - rewrite lookup_insert_ne by done.
    split; [by right | by intros [?|?]].
Qed.

Lemma ensureUniqueQueryNames_from_distinct (queries : list QueryBuilder) :
  forall index seen,
    (forall i q, queries !! i = Some q ->
       ~ taken seen (Name (rootEdge q) ++ "_" ++ fmt_d (index + i))) ->
    (forall i j qi qj,
       queries !! i = Some qi -> queries !! j = Some qj -> (j < i)%nat ->
       Name (rootEdge qj) <> Name (rootEdge qi) ++ "_" ++ fmt_d (index + i)) ->
    NoDup (names_of (ensureUniqueQueryNames_from index seen queries))
    /\ forall name, name ∈ names_of (ensureUniqueQueryNames_from index seen queries) ->
                    ~ taken seen name.
Proof.
  induction queries as [|q queries IH]; intros index seen Hgen Hlit.
  - split; [constructor | by intros name Hin%elem_of_nil].
  - cbn [ensureUniqueQueryNames_from].
    set (q' := if default false (seen !! Name (rootEdge q))
               then QueryBuilder_Name q (Name (rootEdge q) ++ "_" ++ fmt_d index)
               else q).
    assert (~ taken seen (Name (rootEdge q'))
            /\ (Name (rootEdge q') = Name (rootEdge q)
                \/ Name (rootEdge q') = Name (rootEdge q) ++ "_" ++ fmt_d index))
      as [Hfresh Hname].
    { unfold q'. destruct (default false (seen !! Name (rootEdge q))) eqn:Hseen.
      - split; [|by right]. cbn.
        specialize (Hgen 0%nat q eq_refl).
        by replace (index + 0)%nat with index in Hgen by lia.
      - split; [|by left]. unfold taken. by rewrite Hseen. }
    destruct (IH (S index) (<[Name (rootEdge q') := true]> seen)) as [Hnd Hdisj].
    + intros i qi Hqi Htaken. apply taken_insert in Htaken as [Heq|Htaken].
      * destruct Hname as [Hn|Hn]; rewrite Hn in Heq.
        -- apply (Hlit (S i) 0%nat qi q Hqi eq_refl ltac:(lia)).
           by replace (index + S i)%nat with (S index + i)%nat by lia.
        -- apply generated_name_index in Heq. lia.
      * apply (Hgen (S i) qi Hqi).
        by replace (index + S i)%nat with (S index + i)%nat by lia.
    + intros i j qi qj Hqi Hqj Hlt.
      replace (S index + i)%nat with (index + S i)%nat by lia.
      apply (Hlit (S i) (S j) qi qj Hqi Hqj). lia.
    + change (names_of (q' :: ?l)) with (Name (rootEdge q') :: names_of l).
      split.
      * constructor; [|done]. intros Hin. apply Hdisj in Hin.
        apply Hin, taken_insert. by left.
      * intros name [->|Hin]%elem_of_cons; [done|].
        intros Htaken. apply (Hdisj name Hin), taken_insert. by right.
Qed.

(** When no entry already has the name that a later entry would be renamed
    to, the names are pairwise distinct after the uniqueness step. *)
Lemma ensureUniqueQueryNames_distinct (queries : list QueryBuilder) :
  no_generated_name_taken (names_of queries) ->
  NoDup (names_of (ensureUniqueQueryNames queries)).
Proof.
  intros H. apply ensureUniqueQueryNames_from_distinct.
  - intros i q _. unfold taken. by rewrite lookup_empty.
  - intros i j qi qj Hqi Hqj Hlt. cbn [Nat.add].
    apply (H i j (Name (rootEdge qi)) (Name (rootEdge qj))); [| |done];
      unfold names_of; rewrite list_lookup_fmap; [by rewrite Hqi | by rewrite Hqj].
Qed.
(** The first entry is never renamed. *)
Lemma ensureUniqueQueryNames_head (q : QueryBuilder) (queries : list QueryBuilder) :
  head (ensureUniqueQueryNames (q :: queries)) = Some q.
Proof. reflexivity. Qed.

(** C1.  The uniqueness step does not make the names pairwise distinct:
    the name it generates for a colliding entry is not checked against the
    names already taken.  Of three queries named a, a_2 and a, the third
    collides with the first and is renamed a_2, the name of the second. *)
Theorem ensureUniqueQueryNames_not_distinct :
  names_of (ensureUniqueQueryNames [named "a"; named "a_2"; named "a"])
    = ["a"; "a_2"; "a_2"]
  /\ ~ NoDup (names_of (ensureUniqueQueryNames [named "a"; named "a_2"; named "a"])).
Proof.
  assert (names_of (ensureUniqueQueryNames [named "a"; named "a_2"; named "a"])
          = ["a"; "a_2"; "a_2"]) as H by (vm_compute; reflexivity).
  split; [exact H|]. rewrite H. intros Hnd.
  apply NoDup_cons in Hnd as [_ Hnd]. apply NoDup_cons in Hnd as [Hnot _].
  apply Hnot. left.
Qed.

(** A generated name also takes the place of a later first occurrence:
    of three queries named a, a and a_1, the third is the first of its
    name and is renamed all the same. *)
Lemma ensureUniqueQueryNames_first_occurrence_renamed :
  names_of (ensureUniqueQueryNames [named "a"; named "a"; named "a_1"])
  = ["a"; "a_1"; "a_1_2"].
Proof. vm_compute; reflexivity. Qed.

(** *** Wire types *)

(** The inference table on the categories the type switch lists. *)
Lemma goTypeToDQLType_table :
  (forall s, goTypeToDQLType (VString s) = "string")
  /\ (forall n, goTypeToDQLType (VInt n) = "int")
  /\ (forall n, goTypeToDQLType (VInt8 n) = "int")
  /\ (forall n, goTypeToDQLType (VInt32 n) = "int")
  /\ (forall n, goTypeToDQLType (VInt64 n) = "int")
  /\ (forall x, goTypeToDQLType (VFloat32 x) = "float")
  /\ (forall x, goTypeToDQLType (VFloat64 x) = "float")
  /\ (forall b, goTypeToDQLType (VBool b) = "bool")
  /\ (forall t, goTypeToDQLType (VTime t) = "datetime")
  /\ (forall p, goTypeToDQLType (VTimePtr p) = "datetime")
  /\ (forall n, goTypeToDQLType (VUint n) = "string")
  /\ (forall x, goTypeToDQLType (VOther x) = "string")
  /\ goTypeToDQLType VNil = "string".
Proof. repeat split. Qed.

(** C4.  The type switch has no case for int16: a 16-bit signed integer
    falls through to the default and is declared as a string, not as an
    int. *)
Theorem goTypeToDQLType_int16 (n : Z) :
  goTypeToDQLType (VInt16 n) = "string" /\ goTypeToDQLType (VInt16 n) <> "int".
Proof. split; [reflexivity | discriminate]. Qed.

(** *** The name of the document

    On ASCII, lower-casing and then title-casing a name, as
    [queryOperation.ToDQL] does, puts it in title case. *)

Lemma letter_cases (c : ascii) :
  (code c < 128)%N ->
  to_lower c = small c
  /\ to_title (to_lower c) = capital c
  /\ isSeparator (to_lower c) = negb (in_word c).
Proof.
  destruct c as [[] [] [] [] [] [] [] []]; intros H;
    try (vm_compute in H; discriminate H); vm_compute; done.
Qed.

Lemma Title_from_ToLower (s : string) :
  forall prev, ascii_only s ->
    Title_from prev (map_chars to_lower s) = title_cased_from (isSeparator prev) s.
Proof.
  induction s as [|c s IH]; intros prev Hs; [done|].
  destruct Hs as [Hc Hs]. destruct (letter_cases c Hc) as (Hsmall & Hcapital & Hword).
  cbn [map_chars Title_from title_cased_from].
  rewrite (IH _ Hs), Hword. f_equal.
  destruct (isSeparator prev); [exact Hcapital | exact Hsmall].
Qed.

Lemma Title_ToLower (s : string) : ascii_only s -> Title (ToLower s) = title_cased s.
Proof. intros Hs. unfold Title, ToLower. by rewrite Title_from_ToLower. Qed.

Lemma ascii_only_app (a b : string) : ascii_only a -> ascii_only b -> ascii_only (a ++ b).
Proof.
  induction a as [|c a IH]; intros Ha Hb; [done|].
  destruct Ha as [Hc Ha]. rewrite append_cons. split; [done | by apply IH].
Qed.

Lemma all_digits_ascii_only (s : string) : all_digits s -> ascii_only s.
Proof.
  induction s as [|c s IH]; [done|]. intros [Hc Hs]. split; [|by apply IH].
  revert Hc. destruct c as [[] [] [] [] [] [] [] []]; vm_compute; done.
Qed.

Lemma ensureUniqueQueryNames_from_ascii (queries : list QueryBuilder) :
  forall index seen,
    Forall ascii_only (names_of queries) ->
    Forall ascii_only (names_of (ensureUniqueQueryNames_from index seen queries)).
Proof.
  induction queries as [|q queries IH]; intros index seen Hq; [done|].
  apply Forall_cons in Hq as [Hq Hrest].
  cbn [ensureUniqueQueryNames_from]. apply Forall_cons. split; [|by apply IH].
  destruct (default false (seen !! Name (rootEdge q))); [|done].
  cbn. apply ascii_only_app; [done|]. apply ascii_only_app; [by split|].
  apply all_digits_ascii_only, fmt_d_digits.
Qed.

(** C6.  When query assembly succeeds on queries whose names are in
    ASCII, the document is [query <Name>(<declarations>) { <body> }]: the
    name is the root names (after the uniqueness step), each in title
    case, that is, with a capital at the start of each word and every
    other letter small, joined by underscores; the body is the compiled
    texts of the auxiliary variable operations of all queries followed by
    those of the root operations of all queries, joined by single spaces,
    with the markers replaced from the left by [$0], [$1], ...; and the
    declarations are [$i:type] for i = 0, 1, ... in increasing order, one
    per marker, the type inferred from the i-th collected argument. *)
Theorem QueriesToDQL_document (queries : list QueryBuilder) text vars :
  Forall ascii_only (names_of queries) ->
  QueriesToDQL queries = Ok (text, vars, None) ->
  let renamed := ensureUniqueQueryNames queries in
  let ops := (auxiliaries_of renamed ++ roots_of renamed)%list in
  let body := Join (texts_of ops) " " in
  text = "query "
         ++ Join (title_cased <$> names_of renamed) "_"
         ++ "("
         ++ Join (declaration (args_of ops) <$> seq 0 (count_markers body)) ", "
         ++ ") { " ++ number_markers dollar body 0 ++ " }".
Proof.
  intros Hascii.
  assert ((fun op => Title (ToLower (GetName op))) <$> roots_of (ensureUniqueQueryNames queries)
          = title_cased <$> names_of (ensureUniqueQueryNames queries)) as Hnames.
  { apply (ensureUniqueQueryNames_from_ascii _ 0%nat ∅) in Hascii.
    fold (ensureUniqueQueryNames queries) in Hascii.
    unfold roots_of, names_of in *. rewrite <- !list_fmap_compose.
    apply Forall_fmap_ext. rewrite Forall_fmap in Hascii.
    eapply Forall_impl; [exact Hascii|].
    intros q Hq. by apply Title_ToLower. }
  unfold QueriesToDQL. rewrite collect_spec. cbn [operations variables app].
  intros H. apply queryOperation_ToDQL_document in H.
  cbn [operations variables] in H. cbv zeta. by rewrite H, Hnames.
Qed.

(** C6 on two queries with capitals inside their names and a name of two
    words, each with one argument. *)
Lemma QueriesToDQL_document_witness :
  let queries := [query_of (by_name "PEOPLE" [VString "Ann"]) None;
                  query_of (by_name "bestFriend of" [VInt 7]) None] in
  let document :=
    "query People_Bestfriend Of($0:string, $1:int) { "
    ++ "PEOPLE(func: eq(name, $0)) { uid } bestFriend of(func: eq(name, $1)) { uid } }" in
  QueriesToDQL queries =
    Ok (document, Some (<["$0" := "Ann"]> (<["$1" := "7"]> ∅)), None)
  /\ document
     = let renamed := ensureUniqueQueryNames queries in
       let ops := (auxiliaries_of renamed ++ roots_of renamed)%list in
       let body := Join (texts_of ops) " " in
       "query "
         ++ Join (title_cased <$> names_of renamed) "_"
         ++ "("
         ++ Join (declaration (args_of ops) <$> seq 0 (count_markers body)) ", "
         ++ ") { " ++ number_markers dollar body 0 ++ " }".
Proof.
  intros queries document.
  assert (Hnames : Forall ascii_only (names_of queries))
    by (repeat constructor; vm_compute; done).
  assert (H : QueriesToDQL queries =
    Ok (document, Some (<["$0" := "Ann"]> (<["$1" := "7"]> ∅)), None))
    by (vm_compute; reflexivity).
  exact (conj H (QueriesToDQL_document queries _ _ Hnames H)).
Defined.

(** *** Runs

    Sorting makes the indices independent of the order a run ranges over
    the variable table in. *)





End AssemblerFacts.

(** ** Mutation assembly *)

Module ExecutorFacts.
Import GoStrings GoTime Dqlx DqlxSpec.
Import DqlxExamples AssemblerFacts.

Lemma ExecuteMutations_units_ok (executor : DGoExecutor) (mutations : list MutationBuilder) :
  forall queries requests queries' requests',
    ExecuteMutations_units executor mutations queries requests = inr (queries', requests') ->
    queries' = (queries ++ (query <$> mutations))%list
    /\ requests' = (requests ++ (request_of executor <$> mutations))%list.
Proof.
  induction mutations as [|m ms IH]; intros queries requests queries' requests'.
  - cbn. intros [= <- <-]. by rewrite !app_nil_r.
  - cbn [ExecuteMutations_units fmap list_fmap].
    unfold request_of at 1, condition_text at 1.
    destruct (mutationData m) as [[setBytes delBytes] err] eqn:Hd.
    destruct (condition m) as [cond|].
    + destruct (ToDQL cond) as [conditionDql condArgs [e|]] eqn:Hc; cbn; [done|].
      destruct err as [e|]; [done|].
      intros H. apply IH in H as [-> ->].
      by rewrite <- !app_assoc.
    + destruct err as [e|]; [done|].
      intros H. apply IH in H as [-> ->].
      by rewrite <- !app_assoc.
Qed.

Lemma ExecuteMutations_units_args (executor : DGoExecutor)
    (f : list GoValue -> list GoValue) (mutations : list MutationBuilder) :
  forall queries requests,
    ExecuteMutations_units executor (with_condition_args f <$> mutations) queries requests
    = ExecuteMutations_units executor mutations queries requests.
Proof.
  induction mutations as [|m ms IH]; intros queries requests; [done|].
  cbn [fmap list_fmap ExecuteMutations_units].
  change (list_fmap _ _ (with_condition_args f) ms) with (with_condition_args f <$> ms).
  replace (mutationData (with_condition_args f m)) with (mutationData m) by done.
  destruct (mutationData m) as [[setBytes delBytes] err].
  destruct m as [[cond|] q sd dd]; cbn.
  - destruct (ToDQL cond) as [conditionDql condArgs [e|]]; cbn; [done|].
    destruct err as [e|]; [done|]. apply IH.
  - destruct err as [e|]; [done|]. apply IH.
Qed.

Lemma ExecuteMutations_request_built (executor : DGoExecutor)
    (mutations : list MutationBuilder) request queries :
  ExecuteMutations_request executor mutations = Ok (inr (request, queries)) ->
  queries = query <$> mutations
  /\ exists text vars err,
       QueriesToDQL (query <$> mutations) = Ok (text, vars, err)
       /\ request = request_for executor mutations text vars.
Proof.
  unfold ExecuteMutations_request.
  destruct (ensureClient executor); [done|].
  destruct (ExecuteMutations_units executor mutations [] []) as [e|[qs rs]] eqn:Hu; [done|].
  apply ExecuteMutations_units_ok in Hu as [-> ->]. cbn [app].
  destruct (QueriesToDQL (query <$> mutations)) as [[[text vars] err]| |]; cbn; try done.
  unfold request_for.
  destruct (IsEmptyQuery text) eqn:He; intros [= <- <-]; (split; [done|]);
    exists text, vars, err; by rewrite He.
Qed.

Lemma ExecuteMutations_request_compiled (executor : DGoExecutor)
    (mutations : list MutationBuilder) queries requests text vars err :
  ensureClient executor = None ->
  ExecuteMutations_units executor mutations [] [] = inr (queries, requests) ->
  QueriesToDQL (query <$> mutations) = Ok (text, vars, err) ->
  ExecuteMutations_request executor mutations
  = Ok (inr (request_for executor mutations text vars, query <$> mutations)).
Proof.
  intros Hc Hu Hq. unfold ExecuteMutations_request. rewrite Hc, Hu.
  apply ExecuteMutations_units_ok in Hu as [-> ->]. cbn [app].
  rewrite Hq. cbn. unfold request_for. by destruct (IsEmptyQuery text).
Qed.

(** C9.  The arguments a condition compiles to are discarded.  Replacing
    them by anything else leaves the wire request, its variable map
    included, as it is; and the condition text stands in the mutation
    request exactly as the condition compiled it, markers and all. *)
Theorem ExecuteMutations_condition_args_discarded (executor : DGoExecutor)
    (mutations : list MutationBuilder) (f : list GoValue -> list GoValue) :
  ExecuteMutations_request executor (with_condition_args f <$> mutations)
  = ExecuteMutations_request executor mutations
  /\ forall request queries,
       ExecuteMutations_request executor mutations = Ok (inr (request, queries)) ->
       Cond <$> Mutations request = condition_text <$> mutations.
Proof.
  split.
  - unfold ExecuteMutations_request.
    by rewrite ExecuteMutations_units_args.
  - intros request queries H.
    apply ExecuteMutations_request_built in H as (_ & text & vars & err & _ & ->).
    cbn. by rewrite <- list_fmap_compose.
Qed.

(** With no root operation the assembler emits the empty query block,
    which [IsEmptyQuery] recognises. *)
Lemma QueriesToDQL_no_queries :
  QueriesToDQL [] = Ok (emptyQueryBlock, Some ∅, None).
Proof. reflexivity. Qed.

Lemma IsEmptyQuery_emptyQueryBlock : IsEmptyQuery emptyQueryBlock = true.
Proof. reflexivity. Qed.

(** For a batch without units the request carries no query text and no
    variable map. *)
Lemma ExecuteMutations_no_units (executor : DGoExecutor) :
  ensureClient executor = None ->
  exists request,
    ExecuteMutations_request executor [] = Ok (inr (request, []))
    /\ Query request = "" /\ Vars request = None /\ Mutations request = [].
Proof.
  intros Hc. unfold ExecuteMutations_request. rewrite Hc.
  eexists. split; [reflexivity|]. by repeat split.
Qed.

(** A text that is not semantically empty goes into the request as it is,
    and its variable map with it. *)
Lemma ExecuteMutations_query_kept (executor : DGoExecutor)
    (mutations : list MutationBuilder) queries requests text vars err :
  ensureClient executor = None ->
  ExecuteMutations_units executor mutations [] [] = inr (queries, requests) ->
  QueriesToDQL (query <$> mutations) = Ok (text, vars, err) ->
  IsEmptyQuery text = false ->
  exists request,
    ExecuteMutations_request executor mutations = Ok (inr (request, query <$> mutations))
    /\ Query request = text /\ Vars request = vars.
Proof.
  intros Hc Hu Hq He.
  exists (request_for executor mutations text vars).
  split; [by eapply ExecuteMutations_request_compiled|].
  cbn. by rewrite He.
Qed.

(** [ExecuteQueries] hands a compile error back to its caller. *)
Lemma ExecuteQueries_returns_compile_error (executor : DGoExecutor)
    (queries : list QueryBuilder) st text vars e :
  ensureClient executor = None ->
  QueriesToDQL queries = Ok (text, vars, Some e) ->
  ExecuteQueries executor queries st = Ok (st, (None, Some e)).
Proof. intros Hc Hq. unfold ExecuteQueries. by rewrite Hc, Hq. Qed.

(** [ExecuteMutations] does not: when the attached queries fail to
    compile, the call goes on with an empty query text, and what it returns
    is decided by the transaction alone. *)
Lemma ExecuteMutations_drops_compile_error (executor : DGoExecutor)
    (mutations : list MutationBuilder) (st : gmap nat GoValue)
    queries requests text vars e :
  ensureClient executor = None ->
  ExecuteMutations_units executor mutations [] [] = inr (queries, requests) ->
  QueriesToDQL (query <$> mutations) = Ok (text, vars, Some e) ->
  exists tx,
    getTnx executor = Ok tx
    /\ ExecuteMutations executor mutations st =
         match Do tx (request_for executor mutations "" None) with
         | inl err => Ok (st, (None, Some err))
         | inr resp => Ok (toResponse resp (query <$> mutations) st)
         end.
Proof.
  intros Hc Hu Hq.
  destruct (QueriesToDQL_error _ _ _ _ Hq) as [-> ->].
  unfold ExecuteMutations.
  rewrite (ExecuteMutations_request_compiled _ _ _ _ _ _ _ Hc Hu Hq). cbn.
  unfold ensureClient in Hc. unfold getTnx.
  destruct (tnx executor) as [tx|].
  - exists tx. split; [done|]. cbn. by destruct (Do tx _).
  - destruct (client executor) as [c|]; [|done].
    eexists. split; [done|]. cbn. by destruct (Do _ _).
Qed.

(** C2.  A batch whose attached query fails to compile is not aborted:
    [ExecuteMutations] leaves the error of the query assembler unchecked,
    sends the mutations with an empty query text, and returns the response
    with no error, where [ExecuteQueries] on the same query returns the
    compile error. *)
Theorem ExecuteMutations_compile_error_swallowed :
  let failing := query_of broken None in
  QueriesToDQL [failing] = Ok ("", None, Some (Err "edge cannot be compiled"))
  /\ ExecuteQueries ready [failing] ∅
     = Ok (∅, (None, Some (Err "edge cannot be compiled")))
  /\ ExecuteMutations ready [unit_of None failing] ∅
     = Ok (∅, (Some {| Raw := payload; dataKeyPath := "broken" |}, None)).
Proof. repeat split; vm_compute; reflexivity. Qed.

(** C9 on a unit with a guarded condition and an attached query: the
    condition text keeps its marker, and the variable map holds the
    argument of the query alone. *)
Lemma ExecuteMutations_condition_args_discarded_witness :
  let batch := [unit_of (Some guard) (person [VString "Ann"])] in
  let request :=
    request_for ready batch
      "query Person($0:string) { person(func: eq(name, $0)) { uid } }"
      (Some (<["$0" := "Ann"]> ∅)) in
  Cond <$> Mutations request = ["@if(eq(len(v), ??))"]
  /\ Vars request = Some (<["$0" := "Ann"]> ∅).
Proof.
  intros batch request. split; [|vm_compute; reflexivity].
  apply (proj2 (ExecuteMutations_condition_args_discarded ready batch (fun _ => []))
           request [person [VString "Ann"]]).
  vm_compute; reflexivity.
Defined.

End ExecutorFacts.

(** ** Response decoding *)

Module DecoderFacts.
Import GoStrings GoTime Dqlx DqlxSpec DqlxExamples.

Lemma toResponse_loop_app (resp : api_Response) (pre post : list QueryBuilder)
    (st : gmap nat GoValue) :
  toResponse_loop resp (pre ++ post) st =
  match toResponse_loop resp pre st with
  | (st', Some err) => (st', Some err)
  | (st', None) => toResponse_loop resp post st'
  end.
Proof.
  revert st. induction pre as [|q pre IH]; intros st; cbn [app toResponse_loop].
  - done.
  - destruct (unmarshalInto q) as [into|]; [|apply IH].
    destruct (Unmarshal _ into st) as [st' [err|]]; [done | apply IH].
Qed.

(** C3, as amended.  The destinations are decoded in the order of the
    queries, each from the key that is its query's own (renamed) name.
    When the decodes before a query succeed and the decode of that query
    fails, [toResponse] returns at once with that error alone and no
    response: the store is as the failed decode left it, whatever queries
    follow, so none of the remaining destinations is decoded. *)
Theorem toResponse_stops_at_first_failure (resp : api_Response)
    (queries pre post : list QueryBuilder) (q : QueryBuilder) (into : Dest)
    (st st1 st2 : gmap nat GoValue) (err : error) :
  ensureUniqueQueryNames queries = (pre ++ q :: post)%list ->
  toResponse_loop resp pre st = (st1, None) ->
  unmarshalInto q = Some into ->
  Unmarshal {| Raw := resp; dataKeyPath := Name (rootEdge q) |} into st1 = (st2, Some err) ->
  toResponse resp queries st = (st2, (None, Some err)).
Proof.
  intros Hq Hpre Hinto Hfail. unfold toResponse.
  rewrite Hq, toResponse_loop_app, Hpre.
  cbn [toResponse_loop]. by rewrite Hinto, Hfail.
Qed.

(** C3 as stated fails.  Of two queries, the first decodes into a time
    from a text that is not a time and the second into a cell that accepts
    the name it is given.  The second decode succeeds on its own, but after
    the first one has failed it is never run, and the caller gets the
    first error, not an aggregate. *)
Lemma toResponse_second_destination_skipped :
  let queries := [decoding "joined" (timeDest 1); decoding "who" (anyDest 2)] in
  let st := <[1%nat := VNil]> (<[2%nat := VNil]> ∅) in
  Unmarshal {| Raw := payload; dataKeyPath := "who" |} (anyDest 2) st
    = (<[2%nat := VString "Ann"]> st, None)
  /\ toResponse payload queries st = (st, (None, Some parse_error)).
Proof. split; vm_compute; reflexivity. Qed.

(** The amended C3 on the same two queries. *)
Lemma toResponse_stops_witness :
  let st := <[1%nat := VNil]> (<[2%nat := VNil]> ∅) in
  toResponse payload [decoding "joined" (timeDest 1); decoding "who" (anyDest 2)] st
  = (st, (None, Some parse_error)).
Proof.
  intros st.
  apply (toResponse_stops_at_first_failure payload _ [] [decoding "who" (anyDest 2)]
           (decoding "joined" (timeDest 1)) (timeDest 1) st st st parse_error);
    vm_compute; reflexivity.
Defined.
End DecoderFacts.

(** ** Date/time values on the wire *)

Module TimeFacts.
Import GoStrings GoTime Dqlx DqlxSpec DqlxExamples.
Open Scope Z_scope.

Lemma daysBeforeYear_succ (y : Z) :
  daysBeforeYear (y + 1) = daysBeforeYear y + daysInYear y.
Proof.
  unfold daysBeforeYear, daysInYear, isLeap.
  destruct (Z.eqb_spec (y mod 4) 0) as [H4|H4];
    destruct (Z.eqb_spec (y mod 100) 0) as [H100|H100];
    destruct (Z.eqb_spec (y mod 400) 0) as [H400|H400]; cbn [andb orb negb];
    Z.div_mod_to_equations; lia.
Qed.

Lemma daysBeforeYear_cycle (y : Z) :
  daysBeforeYear (y + 400) = daysBeforeYear y + daysPer400Years.
Proof.
  unfold daysBeforeYear, daysPer400Years.
  Z.div_mod_to_equations; lia.
Qed.

Lemma isLeap_cycle (y c : Z) : isLeap (400 * c + y) = isLeap y.
Proof.
  unfold isLeap.
  replace ((400 * c + y) mod 4) with (y mod 4) by (Z.div_mod_to_equations; lia).
  replace ((400 * c + y) mod 100) with (y mod 100) by (Z.div_mod_to_equations; lia).
  replace ((400 * c + y) mod 400) with (y mod 400) by (Z.div_mod_to_equations; lia).
  done.
Qed.
Lemma split_year_spec (fuel : nat) :
  forall y n,
    0 <= n < daysBeforeYear (y + Z.of_nat fuel) - daysBeforeYear y ->
    exists y' r,
      split_year fuel y n = (y', r)
      /\ daysBeforeYear y' + r = daysBeforeYear y + n
      /\ 0 <= r < daysInYear y'.
Proof.
  induction fuel as [|fuel IH]; intros y n Hn.
  - replace (y + Z.of_nat 0) with y in Hn by lia. lia.
  - cbn [split_year]. destruct (Z.ltb_spec n (daysInYear y)) as [Hlt|Hge].
    + exists y, n. repeat split; lia.
    + replace (y + Z.of_nat (S fuel)) with (y + 1 + Z.of_nat fuel) in Hn by lia.
      pose proof (daysBeforeYear_succ y) as Hs.
      destruct (IH (y + 1) (n - daysInYear y)) as (y' & r & Heq & Hsum & Hr); [lia|].
      exists y', r. repeat split; try lia. exact Heq.
Qed.

(** A goal about a month, or about a digit, is settled on each of its
    values by [tac]. *)
Ltac each_up_to_12 m tac :=
  let Hcases := fresh "Hcases" in
  assert (m = 1 \/ m = 2 \/ m = 3 \/ m = 4 \/ m = 5 \/ m = 6 \/ m = 7 \/ m = 8
          \/ m = 9 \/ m = 10 \/ m = 11 \/ m = 12) as Hcases by lia;
  repeat (destruct Hcases as [->|Hcases]; [tac|]);
  subst m; tac.

Ltac each_digit d tac :=
  let Hcases := fresh "Hcases" in
  assert (d = 0 \/ d = 1 \/ d = 2 \/ d = 3 \/ d = 4 \/ d = 5 \/ d = 6 \/ d = 7
          \/ d = 8 \/ d = 9) as Hcases by lia;
  repeat (destruct Hcases as [->|Hcases]; [tac|]);
  subst d; tac.

Lemma daysBeforeMonth_succ (y m : Z) :
  1 <= m <= 12 -> daysBeforeMonth y (m + 1) = daysBeforeMonth y m + daysIn m y.
Proof.
  intros Hm. unfold daysBeforeMonth, daysIn.
  destruct (isLeap y); each_up_to_12 m ltac:(vm_compute; reflexivity).
Qed.

Lemma split_month_steps (y : Z) (fuel : nat) :
  forall m n,
    1 <= m -> m + Z.of_nat fuel = 12 ->
    0 <= n < daysInYear y - daysBeforeMonth y m ->
    exists m' r,
      split_month fuel y m n = (m', r)
      /\ m <= m' <= 12
      /\ 0 <= r < daysIn m' y
      /\ daysBeforeMonth y m' + r = daysBeforeMonth y m + n.
Proof.
  assert (daysBeforeMonth y 13 = daysInYear y) as H13.
  { unfold daysBeforeMonth, daysInYear. by destruct (isLeap y). }
  induction fuel as [|fuel IH]; intros m n Hm Hfuel Hn.
  - assert (m = 12) as -> by lia. cbn [split_month].
    exists 12, n. pose proof (daysBeforeMonth_succ y 12 ltac:(lia)) as Hs.
    change (12 + 1) with 13 in Hs. repeat split; lia.
  - cbn [split_month]. pose proof (daysBeforeMonth_succ y m ltac:(lia)) as Hs.
    destruct (Z.ltb_spec n (daysIn m y)) as [Hlt|Hge].
    + exists m, n. repeat split; lia.
    + destruct (IH (m + 1) (n - daysIn m y)) as (m' & r & Heq & Hm' & Hr & Hsum); try lia.
      exists m', r. repeat split; try lia. exact Heq.
Qed.

Lemma split_month_spec (y n : Z) :
  0 <= n < daysInYear y ->
  exists m r,
    split_month 11 y 1 n = (m, r)
    /\ 1 <= m <= 12
    /\ 0 <= r < daysIn m y
    /\ daysBeforeMonth y m + r = n.
Proof.
  intros Hn.
  assert (daysBeforeMonth y 1 = 0) as H1.
  { unfold daysBeforeMonth. by rewrite andb_false_r. }
  destruct (split_month_steps y 11 1 n) as (m & r & Heq & Hm & Hr & Hsum); try lia.
  exists m, r. repeat split; try lia. exact Heq.
Qed.

(** A day number and the civil date of it determine each other. *)
Lemma civil_from_days_spec (n : Z) :
  exists y m d,
    civil_from_days n = (y, m, d)
    /\ 1 <= m <= 12 /\ 1 <= d <= daysIn m y
    /\ days_from_civil y m d = n.
Proof.
  unfold civil_from_days.
  pose proof (Z.mod_pos_bound n daysPer400Years ltac:(done)) as Hr.
  pose proof (Z.div_mod n daysPer400Years ltac:(done)) as Hn.
  destruct (split_year_spec 400 (400 * (n / daysPer400Years)) (n mod daysPer400Years))
    as (y & yday & -> & Hsum & Hyday).
  { replace (400 * (n / daysPer400Years) + Z.of_nat 400)
      with (400 * (n / daysPer400Years) + 400) by lia.
    rewrite daysBeforeYear_cycle. lia. }
  destruct (split_month_spec y yday Hyday) as (m & r & -> & Hm & Hd & Hsum').
  exists y, m, (r + 1). repeat split; try lia.
  unfold days_from_civil. unfold daysBeforeMonth in Hsum'.
  assert (daysBeforeYear (400 * (n / daysPer400Years))
          = daysPer400Years * (n / daysPer400Years)) as Hc.
  { unfold daysBeforeYear, daysPer400Years. Z.div_mod_to_equations; lia. }
  lia.
Qed.
Lemma digit_val_char (d : Z) :
  0 <= d <= 9 -> digit_val (digit_char d) = Some d.
Proof.
  intros Hd. each_digit d ltac:(vm_compute; reflexivity).
Qed.

Lemma parseUint_2 (v lo hi : Z) :
  0 <= v < 100 -> lo <= v <= hi ->
  parseUint [digit_char (v / 10); digit_char (v mod 10)] lo hi = Some v.
Proof.
  intros Hv Hr. unfold parseUint. cbn [digits_val].
  rewrite !digit_val_char by (Z.div_mod_to_equations; lia).
  cbn [mbind option_bind].
  replace (10 * (10 * 0 + v / 10) + v mod 10) with v by (Z.div_mod_to_equations; lia).
  destruct (Z.leb_spec lo v); [|lia]. destruct (Z.leb_spec v hi); [done | lia].
Qed.

Lemma parseUint_4 (v lo hi : Z) :
  0 <= v < 10000 -> lo <= v <= hi ->
  parseUint [digit_char (v / 1000); digit_char (v / 100 mod 10);
             digit_char (v / 10 mod 10); digit_char (v mod 10)] lo hi = Some v.
Proof.
  intros Hv Hr. unfold parseUint. cbn [digits_val].
  rewrite !digit_val_char by (Z.div_mod_to_equations; lia).
  cbn [mbind option_bind].
  replace (10 * (10 * (10 * (10 * 0 + v / 1000) + v / 100 mod 10) + v / 10 mod 10)
           + v mod 10) with v by (Z.div_mod_to_equations; lia).
  destruct (Z.leb_spec lo v); [|lia]. destruct (Z.leb_spec v hi); [done | lia].
Qed.

Lemma appendInt_2 (v : Z) :
  0 <= v < 100 ->
  appendInt v 2 = String (digit_char (v / 10)) (String (digit_char (v mod 10)) "").
Proof.
  intros Hv. unfold appendInt.
  rewrite Z.abs_eq by lia.
  destruct (Z.ltb_spec v 0); [lia|]. destruct (Z.ltb_spec v 100); [|lia].
  reflexivity.
Qed.

Lemma appendInt_4 (v : Z) :
  0 <= v < 10000 ->
  appendInt v 4 =
  String (digit_char (v / 1000)) (String (digit_char (v / 100 mod 10))
    (String (digit_char (v / 10 mod 10)) (String (digit_char (v mod 10)) ""))).
Proof.
  intros Hv. unfold appendInt.
  rewrite Z.abs_eq by lia.
  destruct (Z.ltb_spec v 0); [lia|]. destruct (Z.ltb_spec v 10000); [|lia].
  reflexivity.
Qed.

Lemma list_ascii_of_string_app (a b : string) :
  list_ascii_of_string (a ++ b) = (list_ascii_of_string a ++ list_ascii_of_string b)%list.
Proof.
  induction a as [|c a IH]; [done|].
  change (String c a ++ b)%string with (String c (a ++ b)).
  cbn [list_ascii_of_string app]. by rewrite IH.
Qed.

Lemma daysIn_le_31 (m y : Z) : 1 <= m <= 12 -> daysIn m y <= 31.
Proof.
  intros Hm. unfold daysIn.
  destruct (isLeap y); each_up_to_12 m ltac:(vm_compute; congruence).
Qed.

(** The zone element is read back as the offset it was written from,
    for an offset of whole minutes within a day. *)
Lemma parse_zone_format (off : Z) :
  off mod 60 = 0 -> -86400 < off < 86400 ->
  parse_fraction (list_ascii_of_string (format_zone off))
    = Some (0, list_ascii_of_string (format_zone off))
  /\ parse_zone (list_ascii_of_string (format_zone off)) = Some off.
Proof.
  intros Hmod Hrange. unfold format_zone.
  destruct (Z.eqb_spec off 0) as [->|Hne]; [done|].
  set (zone := Z.quot off 60).
  assert (off = 60 * zone) as Hexact.
  { apply Z.quot_exact; [done|]. by apply Z.rem_mod_eq_0. }
  assert (Z.abs zone * 60 = Z.abs off /\ (zone < 0 <-> off < 0)) as [Habs Hsign] by lia.
  set (hh := Z.abs zone / 60). set (mm := Z.abs zone mod 60).
  assert (0 <= hh <= 23 /\ 0 <= mm <= 59 /\ (hh * 60 + mm) * 60 = Z.abs off)
    as (Hhh & Hmm & Hsum).
  { unfold hh, mm. Z.div_mod_to_equations. lia. }
  rewrite (appendInt_2 hh), (appendInt_2 mm) by lia.
  destruct (Z.ltb_spec zone 0) as [Hneg|Hpos];
    cbv [append]; cbn [list_ascii_of_string parse_fraction parse_zone];
    (split; [done|]);
    rewrite (parseUint_2 hh), (parseUint_2 mm) by lia;
    cbn [mbind option_bind]; cbn; f_equal; lia.
Qed.
(** Parsing what [Format] wrote gives back the instant, to the second. *)
Lemma Parse_Format (t : Time) :
  0 <= year_of t <= 9999 ->
  offset t mod 60 = 0 ->
  -86400 < offset t < 86400 ->
  Parse_RFC3339 (Format_RFC3339 t)
  = inr {| unixSec := unixSec t; nsec := 0; offset := offset t |}.
Proof.
  intros Hyear Hmod Hoff. unfold Parse_RFC3339.
  enough (parseRFC3339 (Format_RFC3339 t)
          = Some {| unixSec := unixSec t; nsec := 0; offset := offset t |}) as -> by done.
  revert Hyear. unfold year_of, Format_RFC3339. intros Hyear.
  destruct (civil_from_days_spec ((unixSec t + offset t) / secondsPerDay + unixEpochDay))
    as (y & m & d & Hc & Hm & Hd & Hdays).
  rewrite Hc in Hyear |- *. cbn [fst] in Hyear. cbv zeta.
  pose proof (daysIn_le_31 m y Hm) as H31.
  set (secs := (unixSec t + offset t) mod secondsPerDay).
  assert (0 <= secs < 86400) as Hsecs by (apply Z.mod_pos_bound; done).
  set (hour := secs / 3600). set (min := secs mod 3600 / 60). set (sec := secs mod 60).
  assert (0 <= hour <= 23 /\ 0 <= min <= 59 /\ 0 <= sec <= 59
          /\ hour * 3600 + min * 60 + sec = secs) as (Hh & Hmi & Hs & Hsum).
  { unfold hour, min, sec. Z.div_mod_to_equations. lia. }
  rewrite (appendInt_4 y), (appendInt_2 m), (appendInt_2 d), (appendInt_2 hour),
    (appendInt_2 min), (appendInt_2 sec) by lia.
  unfold parseRFC3339. rewrite !list_ascii_of_string_app.
  cbn [list_ascii_of_string app].
  rewrite (parseUint_4 y) by lia. cbn [mbind option_bind].
  rewrite (parseUint_2 m) by lia. cbn [mbind option_bind].
  rewrite (parseUint_2 d) by lia. cbn [mbind option_bind].
  rewrite (parseUint_2 hour) by lia. cbn [mbind option_bind].
  rewrite (parseUint_2 min) by lia. cbn [mbind option_bind].
  rewrite (parseUint_2 sec) by lia. cbn [mbind option_bind].
  destruct (parse_zone_format (offset t) Hmod Hoff) as [Hf Hz].
  rewrite Hf. cbn [mbind option_bind andb Ascii.eqb Bool.eqb]. rewrite Hz.
  cbn [mbind option_bind]. f_equal. f_equal.
  rewrite Hdays.
  pose proof (Z.div_mod (unixSec t + offset t) secondsPerDay ltac:(done)) as Hdm.
  fold secs in Hdm. unfold secondsPerDay in *. lia.
Qed.
(** C8, as amended.  For a date/time value whose civil year is within
    0 to 9999 and whose zone offset is a whole number of minutes within a
    day, encoding it to its wire text and decoding a response that holds
    that text under a key into a date/time destination stores a time of
    the same second with no sub-second part: the original instant
    truncated to the second, and so the original instant when that one has
    no sub-second part. *)
Theorem datetime_round_trip_to_the_second (t : Time) (key : string) (addr : nat)
    (st : gmap nat GoValue) :
  0 <= year_of t <= 9999 ->
  offset t mod 60 = 0 ->
  -86400 < offset t < 86400 ->
  key <> "" ->
  exists text t',
    toVariableValue (VTime t) = Ok text
    /\ Unmarshal {| Raw := {| Json := inr {[ key := JString text ]} |};
                    dataKeyPath := key |} (timeDest addr) st
       = (<[addr := VTime t']> st, None)
    /\ unixSec t' = unixSec t
    /\ nsec t' = 0
    /\ (nsec t = 0 -> same_instant t t').
Proof.
  intros Hyear Hmod Hoff Hkey.
  exists (Format_RFC3339 t), {| unixSec := unixSec t; nsec := 0; offset := offset t |}.
  split; [done|]. split; [|by repeat split].
  unfold Unmarshal. cbn [Raw Json dataKeyPath timeDest dest_is_ptr dest_addr dest_decode negb].
  apply String.eqb_neq in Hkey as ->. cbn [negb].
  rewrite lookup_singleton_eq. cbn [default from_option id DecodeHook reflect_String].
  by rewrite (Parse_Format t Hyear Hmod Hoff).
Qed.

(** C8 as stated fails.  The wire text has no fractional seconds: half a
    second past midnight is encoded as midnight and decoded as midnight,
    which is another instant. *)
Lemma datetime_round_trip_loses_fraction :
  toVariableValue (VTime half_past) = Ok "2021-01-02T00:00:00Z"
  /\ Unmarshal {| Raw := {| Json := inr {[ "joined" := JString "2021-01-02T00:00:00Z" ]} |};
                  dataKeyPath := "joined" |} (timeDest 1) ∅
     = (<[1%nat := VTime {| unixSec := 1609545600; nsec := 0; offset := 0 |}]> ∅, None)
  /\ ~ same_instant half_past {| unixSec := 1609545600; nsec := 0; offset := 0 |}.
Proof.
  split; [vm_compute; reflexivity|]. split; [vm_compute; reflexivity|].
  intros [_ H]. discriminate H.
Qed.

(** The amended C8 on a time on the second, one hour east of UTC. *)
Lemma datetime_round_trip_witness :
  exists text t',
    toVariableValue (VTime on_the_second) = Ok text
    /\ Unmarshal {| Raw := {| Json := inr {[ "joined" := JString text ]} |};
                    dataKeyPath := "joined" |} (timeDest 1) ∅
       = (<[1%nat := VTime t']> ∅, None)
    /\ unixSec t' = unixSec on_the_second
    /\ nsec t' = 0
    /\ (nsec on_the_second = 0 -> same_instant on_the_second t').
Proof.
  apply (datetime_round_trip_to_the_second on_the_second "joined" 1 ∅).
  - vm_compute. split; discriminate.
  - vm_compute. reflexivity.
  - vm_compute. split; reflexivity.
  - discriminate.
Defined.
End TimeFacts.

(** ** More on the assembly of a document *)

Module AssemblerMore.
Import GoStrings GoTime Dqlx DqlxSpec DqlxExamples DqlxMore MarkerFacts AssemblerFacts.

(** *** Compile errors *)

Lemma addStatement_app (l1 l2 : list DQLizer) :
  forall statements args,
    addStatement (l1 ++ l2) statements args =
    match addStatement l1 statements args with
    | (statements', args', Some e) => (statements', args', Some e)
    | (statements', args', None) => addStatement l2 statements' args'
    end.
Proof.
  induction l1 as [|part l1 IH]; intros statements args; [done|].
  cbn [app addStatement].
  destruct (ToDQL part) as [statement queryArg [e|]]; [done | apply IH].
Qed.

Lemma addStatement_all_compile (parts : list DQLizer) :
  Forall compiles parts ->
  forall statements args,
    addStatement parts statements args =
    ((statements ++ ((fun part => out_query (ToDQL part)) <$> parts))%list,
     (args ++ (parts ≫= (fun part => out_args (ToDQL part))))%list, None).
Proof.
  induction 1 as [|part parts Hpart _ IH]; intros statements args.
  - cbn. by rewrite !app_nil_r.
  - cbn [addStatement]. unfold compiles in Hpart.
    destruct (ToDQL part) as [statement queryArg err] eqn:Hp. cbn in Hpart. subst err.
    rewrite IH. cbn. rewrite Hp. cbn. by rewrite <- !app_assoc.
Qed.

(** X1.  [addStatement] stops at the first part that fails to compile: the
    texts and the arguments of the parts before it have been appended, in
    order, nothing of the failing part or of the parts after it has, and the
    error returned is that part's. *)
Theorem addStatement_stops_at_first_error (pre post : list DQLizer) (bad : DQLizer)
    (statements : list string) (args : list GoValue) (e : error) :
  Forall compiles pre ->
  out_err (ToDQL bad) = Some e ->
  addStatement (pre ++ bad :: post) statements args =
  ((statements ++ ((fun part => out_query (ToDQL part)) <$> pre))%list,
   (args ++ (pre ≫= (fun part => out_args (ToDQL part))))%list,
   Some e).
Proof.
  intros Hpre Hbad. rewrite addStatement_app, (addStatement_all_compile _ Hpre).
  cbn [addStatement]. destruct (ToDQL bad) as [statement queryArg err].
  cbn in Hbad. by subst err.
Qed.

Lemma queryOperation_ToDQL_err (grammar : queryOperation) statements args e :
  addStatement (asDQLizer <$> (variables grammar ++ operations grammar)%list) [] []
    = (statements, args, Some e) ->
  queryOperation_ToDQL grammar = Ok ("", None, Some e).
Proof.
  unfold queryOperation_ToDQL, addOperation. rewrite fmap_app, addStatement_app.
  destruct (addStatement (asDQLizer <$> variables grammar) [] []) as [[st1 ar1] [e1|]].
  - by intros [= _ _ ->].
  - destruct (addStatement (asDQLizer <$> operations grammar) st1 ar1) as [[st2 ar2] [e2|]].
    + by intros [= _ _ ->].
    + done.
Qed.

(** X2.  [QueriesToDQL] compiles the auxiliary queries of all the renamed
    queries and then their root edges; when one of these fails to compile
    and those before it compile, that one's error is returned, with an empty
    text and a nil variable map. *)
Theorem QueriesToDQL_first_error (queries : list QueryBuilder)
    (pre post : list Operation) (bad : Operation) (e : error) :
  let renamed := ensureUniqueQueryNames queries in
  (auxiliaries_of renamed ++ roots_of renamed)%list = (pre ++ bad :: post)%list ->
  Forall (fun op => compiles (asDQLizer op)) pre ->
  out_err (ToDQL (asDQLizer bad)) = Some e ->
  QueriesToDQL queries = Ok ("", None, Some e).
Proof.
  intros renamed Hops Hpre Hbad. unfold QueriesToDQL. rewrite collect_spec.
  cbn [operations variables app]. fold renamed.
  eapply queryOperation_ToDQL_err. cbn [operations variables].
  rewrite Hops, fmap_app, fmap_cons, addStatement_app.
  rewrite addStatement_all_compile by (by apply Forall_fmap).
  cbn [addStatement]. destruct (ToDQL (asDQLizer bad)) as [statement queryArg err].
  cbn in Hbad. subst err. reflexivity.
Qed.

Lemma QueriesToDQL_first_error_witness :
  QueriesToDQL [named "people"; with_auxiliary (query_of broken None)]
  = Ok ("", None, Some (Err "edge cannot be compiled")).
Proof.
  apply (QueriesToDQL_first_error
           [named "people"; with_auxiliary (query_of broken None)]
           [] [edge_Operation (all_of "people"); edge_Operation (all_of "people_1")]
           (edge_Operation broken)).
  - vm_compute; reflexivity.
  - constructor.
  - reflexivity.
Defined.

(** *** The variable map and the outcome of assembly *)

Lemma dollar_inj (i j : nat) : dollar i = dollar j -> i = j.
Proof.
  unfold dollar, fmt_d. intros H.
  change ("$" ++ pretty i) with (String "$" (pretty i)) in H.
  change ("$" ++ pretty j) with (String "$" (pretty j)) in H.
  injection H as H. by apply (inj pretty) in H.
Qed.

Lemma toVariableValue_returns (v : GoValue) :
  v <> VTimePtr None -> exists s, toVariableValue v = Ok s.
Proof. destruct v as [| | | | | | | | | | |t|[t|]|]; intros Hv; try done; by eexists. Qed.

(** What the loop of [toVariables] makes of the variable map, run over the
    indices [index .. index+k-1] with room for their declarations. *)
Lemma toVariables_loop_variables (raw : gmap nat GoValue) (k : nat) :
  forall (index : nat) (vars : gmap string string) (phs : list string) v p,
    (index + k <= List.length phs)%nat ->
    toVariables_loop raw index (seq index k) vars phs = Ok (v, p) ->
    (forall j, (index <= j < index + k)%nat ->
       exists s, toVariableValue (raw_lookup raw j) = Ok s /\ v !! dollar j = Some s)
    /\ (forall key, (forall j, (index <= j < index + k)%nat -> key <> dollar j) ->
          v !! key = vars !! key).
Proof.
  induction k as [|k IH]; intros index vars phs v p Hlen.
  - cbn. intros [= <- _]. split; [intros j; lia | done].
  - cbn [seq toVariables_loop].
    destruct (toVariableValue (raw_lookup raw index)) as [value| |] eqn:Hvalue; cbn; try done.
    case_decide as Hlt; [|done].
    intros Hloop. apply IH in Hloop as [Hin Hout]; [|rewrite length_insert; lia].
    split.
    + intros j Hj. destruct (decide (j = index)) as [->|Hne].
      * exists value. split; [done|].
        rewrite Hout; [by rewrite lookup_insert_eq|].
        intros j Hj' Heq. apply dollar_inj in Heq. lia.
      * apply Hin. lia.
    + intros key Hkey. rewrite Hout.
      * rewrite lookup_insert_ne; [done|]. intros Heq. apply (Hkey index); [lia | done].
      * intros j Hj. apply Hkey. lia.
Qed.

Lemma toVariables_loop_outcome (raw : gmap nat GoValue) (k : nat) :
  forall (index : nat) (vars : gmap string string) (phs : list string),
    (index + k <= List.length phs)%nat ->
    ((forall j, (index <= j < index + k)%nat -> raw_lookup raw j <> VTimePtr None) ->
       exists v p, toVariables_loop raw index (seq index k) vars phs = Ok (v, p))
    /\ (forall j, (index <= j < index + k)%nat -> raw_lookup raw j = VTimePtr None ->
          toVariables_loop raw index (seq index k) vars phs
          = Panic "invalid memory address or nil pointer dereference").
Proof.
  induction k as [|k IH]; intros index vars phs Hlen.
  - split; [by eexists _, _ | intros j; lia].
  - cbn [seq toVariables_loop]. split.
    + intros Hall.
      destruct (toVariableValue_returns (raw_lookup raw index)) as [s ->]; [apply Hall; lia|].
      cbn. case_decide; [|lia].
      apply IH; [rewrite length_insert; lia|]. intros j Hj. apply Hall. lia.
    + intros j Hj Hnil.
      destruct (decide (raw_lookup raw index = VTimePtr None)) as [Hhere|Hhere].
      * by rewrite Hhere.
      * destruct (toVariableValue_returns _ Hhere) as [s ->].
        cbn. case_decide; [|lia].
        apply (IH (S index)) with (j := j); [rewrite length_insert; lia | | done].
        destruct (decide (j = index)) as [->|]; [done | lia].
Qed.

Lemma queryOperation_ToDQL_ok (grammar : queryOperation) text vars :
  queryOperation_ToDQL grammar = Ok (text, Some vars, None) ->
  let ops := (variables grammar ++ operations grammar)%list in
  let k := count_markers (Join (texts_of ops) " ") in
  (k <= List.length (args_of ops))%nat
  /\ exists p, toVariables (table_from (args_of ops) 0 k ∅) = Ok (vars, p).
Proof.
  unfold queryOperation_ToDQL.
  destruct (addOperation (variables grammar) [] []) as [[st1 ar1] [e1|]] eqn:H1; [done|].
  apply addOperation_ok in H1 as [-> ->].
  destruct (addOperation (operations grammar) _ _) as [[st2 ar2] [e2|]] eqn:H2; [done|].
  apply addOperation_ok in H2 as [-> ->].
  cbn [app]. unfold texts_of, args_of.
  rewrite <- fmap_app, <- bind_app.
  rewrite replacePlaceholders_spec.
  case_decide as Hk; [|done].
  cbn [mbind outcome_bind].
  destruct (toVariables _) as [[v p]| |] eqn:Hv; try done.
  intros [= _ <-]. split; [done | by exists p].
Qed.

Lemma args_of_parts (l : list Operation) :
  args_of l = (asDQLizer <$> l) ≫= (fun part => out_args (ToDQL part)).
Proof. induction l as [|op l IH]; [done|]. cbn. by rewrite <- IH. Qed.

Lemma args_of_app (l1 l2 : list Operation) :
  args_of (l1 ++ l2) = (args_of l1 ++ args_of l2)%list.
Proof. unfold args_of. apply bind_app. Qed.

Lemma queryOperation_ToDQL_compiled (grammar : queryOperation) :
  let ops := (variables grammar ++ operations grammar)%list in
  let body := Join (texts_of ops) " " in
  Forall (fun op => compiles (asDQLizer op)) ops ->
  queryOperation_ToDQL grammar =
  if decide (count_markers body <= List.length (args_of ops))%nat
  then
    match toVariables (table_from (args_of ops) 0 (count_markers body) ∅) with
    | Ok (vars, placeholders) =>
        Ok ("query "
            ++ Join ((fun op => Title (ToLower (GetName op))) <$> operations grammar) "_"
            ++ "(" ++ Join placeholders ", " ++ ") {"
            ++ (" " ++ number_markers dollar body 0) ++ " }",
            Some vars, None)
    | Panic msg => Panic msg
    | OutOfFuel => OutOfFuel
    end
  else Panic "index out of range".
Proof.
  intros ops body Hall. unfold queryOperation_ToDQL, addOperation.
  apply Forall_app in Hall as [Hvars Hops].
  rewrite (addStatement_all_compile (asDQLizer <$> variables grammar))
    by (by apply Forall_fmap).
  rewrite (addStatement_all_compile (asDQLizer <$> operations grammar))
    by (by apply Forall_fmap).
  cbn [app].
  rewrite <- !list_fmap_compose, <- fmap_app.
  replace (((asDQLizer <$> variables grammar) ≫= (fun part => out_args (ToDQL part)))
           ++ ((asDQLizer <$> operations grammar) ≫= (fun part => out_args (ToDQL part))))%list
    with (args_of ops).
  2:{ unfold ops. by rewrite args_of_app, !args_of_parts. }
  rewrite replacePlaceholders_spec.
  change ((fun part => out_query (ToDQL part)) ∘ asDQLizer
            <$> (variables grammar ++ operations grammar)%list) with (texts_of ops).
  fold body.
  case_decide; [|done]. cbn [mbind outcome_bind].
  by destruct (toVariables _) as [[v p]| |].
Qed.

Section Outcome.

Variable queries : list QueryBuilder.

Let renamed := ensureUniqueQueryNames queries.
Let ops := (auxiliaries_of renamed ++ roots_of renamed)%list.
Let collected := args_of ops.
Let markers := count_markers (Join (texts_of ops) " ").

Lemma QueriesToDQL_grammar :
  QueriesToDQL queries =
  queryOperation_ToDQL {| operations := roots_of renamed; variables := auxiliaries_of renamed |}.
Proof. unfold QueriesToDQL. by rewrite collect_spec. Qed.

(** X3.  [QueriesToDQL] returns a document and a variable map, with no
    error, when every operation compiles, the texts hold no more markers
    than arguments were collected, and none of the arguments a marker stands
    for is a nil pointer to a time. *)
Theorem QueriesToDQL_returns :
  Forall (fun op => compiles (asDQLizer op)) ops ->
  (markers <= List.length collected)%nat ->
  (forall i, (i < markers)%nat -> collected !! i <> Some (VTimePtr None)) ->
  exists text vars, QueriesToDQL queries = Ok (text, Some vars, None).
Proof.
  intros Hall Hk Hnil. rewrite QueriesToDQL_grammar.
  rewrite queryOperation_ToDQL_compiled by done.
  cbn [operations variables]. fold ops. fold collected. fold markers.
  case_decide; [|lia].
  unfold toVariables. rewrite getSortedVariables_table, size_table.
  destruct (toVariables_loop_outcome (table_from collected 0 markers ∅) markers 0 ∅
              (replicate markers "")) as [Hok _]; [rewrite length_replicate; lia|].
  destruct Hok as (v & p & ->); [|by eexists _, _].
  intros j Hj. rewrite raw_lookup_table by lia. intros Heq.
  apply (Hnil j); [lia|].
  destruct (collected !! j) as [x|] eqn:Hx; [by cbn in Heq; subst|].
  apply lookup_ge_None in Hx. lia.
Qed.

(** X4.  When every operation compiles and the texts hold more markers
    than arguments were collected, [QueriesToDQL] does not return: it panics
    on the index that is out of range. *)
Theorem QueriesToDQL_panics_without_argument :
  Forall (fun op => compiles (asDQLizer op)) ops ->
  (List.length collected < markers)%nat ->
  QueriesToDQL queries = Panic "index out of range".
Proof.
  intros Hall Hk. rewrite QueriesToDQL_grammar.
  rewrite queryOperation_ToDQL_compiled by done.
  cbn [operations variables]. fold ops. fold collected. fold markers.
  case_decide; [lia | done].
Qed.

(** X5.  When every operation compiles and one of the arguments a marker
    stands for is a nil pointer to a time, [QueriesToDQL] does not return:
    formatting that argument dereferences the nil pointer. *)
Theorem QueriesToDQL_panics_on_nil_time (i : nat) :
  Forall (fun op => compiles (asDQLizer op)) ops ->
  (markers <= List.length collected)%nat ->
  (i < markers)%nat ->
  collected !! i = Some (VTimePtr None) ->
  QueriesToDQL queries = Panic "invalid memory address or nil pointer dereference".
Proof.
  intros Hall Hk Hi Hnil. rewrite QueriesToDQL_grammar.
  rewrite queryOperation_ToDQL_compiled by done.
  cbn [operations variables]. fold ops. fold collected. fold markers.
  case_decide; [|lia].
  unfold toVariables. rewrite getSortedVariables_table, size_table.
  destruct (toVariables_loop_outcome (table_from collected 0 markers ∅) markers 0 ∅
              (replicate markers "")) as [_ Hpanic]; [rewrite length_replicate; lia|].
  rewrite (Hpanic i); [done | lia|].
  rewrite raw_lookup_table by lia. by rewrite Hnil.
Qed.

(** X6.  The variable map [QueriesToDQL] returns has one entry for each
    marker, in the order of the markers: the key is the dollar sign and the
    position, the value the wire text of the argument collected at that
    position.  It has no other key. *)
Theorem QueriesToDQL_variable_map text vars :
  QueriesToDQL queries = Ok (text, Some vars, None) ->
  (forall i, (i < markers)%nat ->
     exists v s, collected !! i = Some v /\ toVariableValue v = Ok s
                 /\ vars !! dollar i = Some s)
  /\ (forall key, (forall i, (i < markers)%nat -> key <> dollar i) -> vars !! key = None).
Proof.
  rewrite QueriesToDQL_grammar. intros H.
  apply queryOperation_ToDQL_ok in H as [Hk [p Hv]].
  cbn [operations variables] in Hk, Hv. fold ops in Hk, Hv. fold collected in Hk, Hv.
  fold markers in Hk, Hv.
  unfold toVariables in Hv. rewrite getSortedVariables_table, size_table in Hv.
  apply toVariables_loop_variables in Hv as [Hin Hout]; [|rewrite length_replicate; lia].
  split.
  - intros i Hi. destruct (Hin i ltac:(lia)) as (s & Hs & Hlook).
    rewrite raw_lookup_table in Hs by lia.
    destruct (collected !! i) as [v|] eqn:Hvi.
    + by exists v, s.
    + apply lookup_ge_None in Hvi. lia.
  - intros key Hkey. rewrite Hout; [done|]. intros j Hj. apply Hkey. lia.
Qed.

End Outcome.

Lemma addStatement_stops_witness :
  addStatement [guard; {| ToDQL := edge_ToDQL broken |}; guard] ["first"] [VInt 0]
  = (["first"; "@if(eq(len(v), ??))"], [VInt 0; VInt 1], Some (Err "edge cannot be compiled")).
Proof.
  apply (addStatement_stops_at_first_error [guard] [guard] {| ToDQL := edge_ToDQL broken |}).
  - repeat constructor.
  - reflexivity.
Defined.

Lemma QueriesToDQL_returns_witness :
  exists text vars,
    QueriesToDQL [person [VString "Ann"; VTimePtr None]] = Ok (text, Some vars, None).
Proof.
  apply (QueriesToDQL_returns [person [VString "Ann"; VTimePtr None]]).
  - repeat constructor.
  - vm_compute. lia.
  - intros i Hi. assert (i = 0%nat) as -> by (vm_compute in Hi; lia). discriminate.
Defined.

Lemma QueriesToDQL_panics_without_argument_witness :
  QueriesToDQL [starved_query] = Panic "index out of range".
Proof.
  apply (QueriesToDQL_panics_without_argument [starved_query]).
  - repeat constructor.
  - vm_compute. lia.
Defined.

Lemma QueriesToDQL_panics_on_nil_time_witness :
  QueriesToDQL [nil_time_query] = Panic "invalid memory address or nil pointer dereference".
Proof.
  apply (QueriesToDQL_panics_on_nil_time [nil_time_query] 0).
  - repeat constructor.
  - vm_compute. lia.
  - vm_compute. lia.
  - reflexivity.
Defined.

Lemma QueriesToDQL_variable_map_witness :
  (<["$0" := "Ann"]> (<["$1" := "7"]> ∅) : gmap string string) !! dollar 1 = Some "7"
  /\ (<["$0" := "Ann"]> (<["$1" := "7"]> ∅) : gmap string string) !! "$2" = None.
Proof.
  destruct (QueriesToDQL_variable_map [person [VString "Ann"]; person [VInt 7]]
              two_people_document (<["$0" := "Ann"]> (<["$1" := "7"]> ∅)))
    as [Hin Hout]; [vm_compute; reflexivity|].
  split.
  - destruct (Hin 1%nat) as (v & s & Hv & Hs & Hlook); [vm_compute; lia|].
    vm_compute in Hv. injection Hv as <-. vm_compute in Hs. injection Hs as <-.
    exact Hlook.
  - apply Hout. intros i Hi Heq.
    assert (i = 0 \/ i = 1)%nat as [->| ->] by (vm_compute in Hi; lia); discriminate Heq.
Defined.

(** *** No marker is left *)

Lemma count_markers_skip (a : ascii) (s : string) :
  a <> "?"%char -> count_markers (String a s) = count_markers s.
Proof.
  intros Ha. destruct s as [|b s]; [done|].
  rewrite count_markers_step. unfold is_marker.
  assert (Ascii.eqb "?" a = false) as -> by (apply Ascii.eqb_neq; congruence).
  done.
Qed.

Lemma count_markers_skip_all (r s : string) :
  no_question_mark r -> count_markers (r ++ s) = count_markers s.
Proof.
  induction r as [|c r IH]; intros Hr; [done|].
  destruct Hr as [Hc Hr]. rewrite append_cons, count_markers_skip by done.
  by apply IH.
Qed.

Lemma all_digits_no_question_mark (s : string) :
  all_digits s -> no_question_mark s.
Proof.
  induction s as [|c s IH]; [done|]. intros [Hc Hs]. split; [|by apply IH].
  intros ->. discriminate Hc.
Qed.

Lemma dollar_no_question_mark (i : nat) : no_question_mark (dollar i).
Proof.
  unfold dollar. change ("$" ++ fmt_d i) with (String "$" (fmt_d i)).
  split; [done|]. apply all_digits_no_question_mark, fmt_d_digits.
Qed.

(** What the renumbered text starts with: the reference sign, or the
    character the text started with. *)
Lemma number_markers_head (b : ascii) (s : string) (i : nat) :
  exists rest,
    number_markers dollar (String b s) i = String "$" rest
    \/ number_markers dollar (String b s) i = String b rest.
Proof.
  destruct s as [|c s]; [exists ""; by right|].
  rewrite number_markers_step. destruct (is_marker b c).
  - eexists. left. unfold dollar.
    change ("$" ++ fmt_d i) with (String "$" (fmt_d i)). by rewrite append_cons.
  - eexists. by right.
Qed.

Lemma number_markers_marker_free (n : nat) :
  forall (s : string) (i : nat),
    (String.length s <= n)%nat -> count_markers (number_markers dollar s i) = 0%nat.
Proof.
  induction n as [|n IH]; intros s i Hn.
  - destruct s; [reflexivity | cbn in Hn; lia].
  - destruct s as [|a [|b s]]; [reflexivity | reflexivity |].
    rewrite number_markers_step. destruct (is_marker a b) eqn:Hm.
    + rewrite count_markers_skip_all by apply dollar_no_question_mark.
      apply IH. cbn in Hn. lia.
    + assert (count_markers (number_markers dollar (String b s) i) = 0%nat) as Hrest.
      { apply IH. cbn in Hn |- *. lia. }
      destruct (decide (a = "?"%char)) as [->|Ha]; [|by rewrite count_markers_skip].
      assert (b <> "?"%char) as Hb.
      { intros ->. discriminate Hm. }
      destruct (number_markers_head b s i) as [rest [Hhead|Hhead]];
        rewrite Hhead in Hrest |- *; rewrite count_markers_step.
      * change (is_marker "?" "$") with false. exact Hrest.
      * unfold is_marker.
        assert (Ascii.eqb "?" b = false) as -> by (apply Ascii.eqb_neq; congruence).
        rewrite andb_false_r. exact Hrest.
Qed.

(** X7.  With the transformation [ToDQL] passes, which writes the dollar
    sign and the index, the text [replacePlaceholders] returns holds no
    marker any more. *)
Theorem replacePlaceholders_leaves_no_marker (query : string) (args : list GoValue)
    (text : string) (table : gmap nat GoValue) :
  replacePlaceholders query args (fun index _ => "$" ++ fmt_d index) = Ok (text, table) ->
  Index text "??" = None.
Proof.
  rewrite replacePlaceholders_spec. case_decide; [|done]. intros [= <- _].
  destruct (Index _ "??") as [p|] eqn:Hidx; [|done].
  apply Index_marker_Some in Hidx as [Hc _].
  change (fun k : nat => "$" ++ fmt_d k) with dollar in Hc.
  by rewrite (number_markers_marker_free _ _ _ (le_n _)) in Hc.
Qed.

Lemma replacePlaceholders_leaves_no_marker_witness :
  Index "a $0 b $1? c" "??" = None.
Proof.
  apply (replacePlaceholders_leaves_no_marker "a ?? b ??? c"
           [VInt 1; VString "x"; VBool true] _
           (<[0%nat := VInt 1]> (<[1%nat := VString "x"]> ∅))).
  vm_compute; reflexivity.
Defined.

(** *** The uniqueness step on names that are distinct already *)

Lemma ensureUniqueQueryNames_from_untouched (queries : list QueryBuilder) :
  forall index seen,
    NoDup (names_of queries) ->
    (forall name, name ∈ names_of queries -> ~ taken seen name) ->
    ensureUniqueQueryNames_from index seen queries = queries.
Proof.
  induction queries as [|q queries IH]; intros index seen Hnd Hfree; [done|].
  cbn [ensureUniqueQueryNames_from].
  change (names_of (q :: queries)) with (Name (rootEdge q) :: names_of queries) in *.
  apply NoDup_cons in Hnd as [Hnotin Hnd].
  assert (default false (seen !! Name (rootEdge q)) = false) as ->.
  { specialize (Hfree (Name (rootEdge q)) ltac:(left)). unfold taken in Hfree.
    by destruct (default false (seen !! Name (rootEdge q))). }
  f_equal. apply IH; [done|].
  intros name Hin [<-|Htaken]%taken_insert; [done|].
  apply (Hfree name); [by right | done].
Qed.

(** X8.  [ensureUniqueQueryNames] returns the queries as they are when
    their names are pairwise distinct. *)
Theorem ensureUniqueQueryNames_distinct_untouched (queries : list QueryBuilder) :
  NoDup (names_of queries) -> ensureUniqueQueryNames queries = queries.
Proof.
  intros Hnd. apply ensureUniqueQueryNames_from_untouched; [done|].
  intros name _. unfold taken. by rewrite lookup_empty.
Qed.

Lemma ensureUniqueQueryNames_distinct_untouched_witness :
  ensureUniqueQueryNames [named "a_1"; named "a"; named "b"]
  = [named "a_1"; named "a"; named "b"].
Proof.
  apply ensureUniqueQueryNames_distinct_untouched.
  change (NoDup ["a_1"; "a"; "b"]). compute_done.
Defined.

Lemma ensureUniqueQueryNames_from_keeps (queries : list QueryBuilder) (index : nat)
    (seen : gmap string bool) :
  query_variables <$> ensureUniqueQueryNames_from index seen queries
    = query_variables <$> queries
  /\ unmarshalInto <$> ensureUniqueQueryNames_from index seen queries
    = unmarshalInto <$> queries
  /\ (fun q => edge_compile (rootEdge q)) <$> ensureUniqueQueryNames_from index seen queries
    = (fun q => edge_compile (rootEdge q)) <$> queries.
Proof.
  revert index seen. induction queries as [|q queries IH]; intros index seen; [done|].
  cbn [ensureUniqueQueryNames_from fmap list_fmap].
  destruct (IH (S index)
              (<[Name (rootEdge
                   (if default false (seen !! Name (rootEdge q))
                    then QueryBuilder_Name q (Name (rootEdge q) ++ "_" ++ fmt_d index)
                    else q)) := true]> seen)) as (Hv & Hd & Hc).
  repeat split; (f_equal; [by destruct (default false _) | done]).
Qed.

(** X9.  [ensureUniqueQueryNames] changes names only: it returns as many
    queries as it is given and, position by position, with the same
    auxiliary queries, the same decode destination and an edge that compiles
    as before; and the first name is never changed. *)
Theorem ensureUniqueQueryNames_renames_only (queries : list QueryBuilder) :
  List.length (ensureUniqueQueryNames queries) = List.length queries
  /\ query_variables <$> ensureUniqueQueryNames queries = query_variables <$> queries
  /\ unmarshalInto <$> ensureUniqueQueryNames queries = unmarshalInto <$> queries
  /\ (fun q => edge_compile (rootEdge q)) <$> ensureUniqueQueryNames queries
     = (fun q => edge_compile (rootEdge q)) <$> queries
  /\ head (names_of (ensureUniqueQueryNames queries)) = head (names_of queries).
Proof.
  unfold ensureUniqueQueryNames. split; [apply ensureUniqueQueryNames_from_length|].
  destruct (ensureUniqueQueryNames_from_keeps queries 0%nat ∅) as (Hv & Hd & Hc).
  repeat split; try done.
  by destruct queries.
Qed.

(** *** What assembly reads of a query *)

Lemma same_tree_pruned (queries : list QueryBuilder) :
  Forall2 same_tree (pruned <$> queries) queries.
Proof.
  induction queries as [|q queries IH]; [constructor|].
  cbn. constructor; [|exact IH].
  split; [by split|]. cbn.
  induction (query_variables q) as [|v vs IHv]; [constructor|].
  cbn. constructor; [by split | exact IHv].
Qed.

(** X10.  [QueriesToDQL] reads of a query its root edge and the root edges
    of its auxiliary queries, and nothing else: removing the auxiliary
    queries of the auxiliary queries, and all decode destinations, does not
    change what it returns. *)
Theorem QueriesToDQL_reads_one_level (queries : list QueryBuilder) :
  QueriesToDQL (pruned <$> queries) = QueriesToDQL queries.
Proof.
  pose proof (same_tree_pruned queries) as H.
  unfold QueriesToDQL. rewrite !collect_spec.
  apply (ensureUniqueQueryNames_from_same _ _) with (index := 0%nat) (seen := ∅) in H.
  unfold ensureUniqueQueryNames.
  by rewrite (same_tree_roots _ _ H), (same_tree_auxiliaries _ _ H).
Qed.

(** X11.  The names are pairwise distinct after the uniqueness step when no
    entry already has the name a later entry would be renamed to: here on
    three names of which the third repeats the first. *)
Lemma ensureUniqueQueryNames_distinct_witness :
  NoDup (names_of (ensureUniqueQueryNames [named "a"; named "b"; named "a"])).
Proof.
  apply ensureUniqueQueryNames_distinct.
  intros i j ni nj Hi Hj Hlt.
  destruct i as [|[|[|i]]]; [lia | | | done];
    destruct j as [|[|j]]; try lia;
    vm_compute in Hi, Hj; injection Hi as <-; injection Hj as <-; discriminate.
Defined.

End AssemblerMore.

(** ** More on the executor *)

Module ExecutorMore.
Import GoStrings GoTime Dqlx DqlxSpec DqlxExamples DqlxMore.
Import MarkerFacts AssemblerFacts ExecutorFacts AssemblerMore.

(** *** Marshalling the data of a unit *)

(** X12.  [mutationData] returns both byte slices or none: with an error,
    both are nil, and the error is that of marshalling the set data when
    that fails, whatever the delete data; it is that of marshalling the
    delete data only when marshalling the set data went well or there was
    none;
    without error, each slice is there exactly when its data is, and holds
    its JSON text. *)
Theorem mutationData_all_or_nothing (mutation : MutationBuilder)
    (setBytes delBytes : option string) (err : option error) :
  mutationData mutation = (setBytes, delBytes, err) ->
  match err with
  | Some e =>
      setBytes = None /\ delBytes = None
      /\ (setData mutation = Some (inl e)
          \/ (forall e', setData mutation <> Some (inl e'))
             /\ delData mutation = Some (inl e))
  | None =>
      setData mutation = inr <$> setBytes /\ delData mutation = inr <$> delBytes
  end.
Proof.
  unfold mutationData.
  destruct (setData mutation) as [[e|bytes]|]; destruct (delData mutation) as [[e'|bytes']|];
    intros [= <- <- <-]; cbn; repeat split; auto; right; split; done.
Qed.

Lemma mutationData_all_or_nothing_witness :
  None = (None : option string) /\ None = (None : option string)
  /\ (setData twice_unmarshalable = Some (inl (Err "json: unsupported type"))
      \/ (forall e', setData twice_unmarshalable <> Some (inl e'))
         /\ delData twice_unmarshalable = Some (inl (Err "json: unsupported type"))).
Proof.
  apply (mutationData_all_or_nothing twice_unmarshalable None None
           (Some (Err "json: unsupported type"))).
  reflexivity.
Defined.

(** *** The loop over the units *)

Lemma unit_error_None (mutation : MutationBuilder) :
  unit_error mutation = None ->
  (mutationData mutation).2 = None
  /\ match condition mutation with
     | Some cond => out_err (ToDQL cond) = None
     | None => True
     end.
Proof.
  unfold unit_error. destruct (condition mutation) as [cond|]; [|done].
  by destruct (out_err (ToDQL cond)).
Qed.

Lemma ExecuteMutations_units_step_ok (executor : DGoExecutor) (m : MutationBuilder)
    (rest : list MutationBuilder) queries requests :
  unit_error m = None ->
  ExecuteMutations_units executor (m :: rest) queries requests
  = ExecuteMutations_units executor rest (queries ++ [query m])
      (requests ++ [request_of executor m]).
Proof.
  intros [Hd Hc]%unit_error_None. cbn [ExecuteMutations_units].
  unfold request_of, condition_text.
  destruct (mutationData m) as [[setBytes delBytes] err]. cbn in Hd. subst err.
  destruct (condition m) as [cond|]; [|done].
  destruct (ToDQL cond) as [conditionDql condArgs cerr]. cbn in Hc. by subst cerr.
Qed.

Lemma ExecuteMutations_units_step_error (executor : DGoExecutor) (m : MutationBuilder)
    (rest : list MutationBuilder) queries requests e :
  unit_error m = Some e ->
  ExecuteMutations_units executor (m :: rest) queries requests = inl e.
Proof.
  unfold unit_error. cbn [ExecuteMutations_units].
  destruct (mutationData m) as [[setBytes delBytes] err]. cbn [snd].
  destruct (condition m) as [cond|].
  - destruct (ToDQL cond) as [conditionDql condArgs [ce|]]; cbn.
    + by intros [= ->].
    + by intros ->.
  - by intros ->.
Qed.

Lemma ExecuteMutations_units_prefix (executor : DGoExecutor)
    (pre rest : list MutationBuilder) :
  Forall (fun u => unit_error u = None) pre ->
  forall queries requests,
    ExecuteMutations_units executor (pre ++ rest) queries requests
    = ExecuteMutations_units executor rest (queries ++ (query <$> pre))
        (requests ++ (request_of executor <$> pre)).
Proof.
  induction 1 as [|m pre Hm _ IH]; intros queries requests.
  - cbn. by rewrite !app_nil_r.
  - cbn [app]. rewrite ExecuteMutations_units_step_ok by done.
    rewrite IH. cbn. by rewrite <- !app_assoc.
Qed.

(** X13.  With a client set, [ExecuteMutations] returns the error of the
    first unit whose condition does not compile or whose data cannot be
    marshalled, with no response and with the decode destinations as they
    were: the units after it, and the queries attached to any unit, play no
    part. *)
Theorem ExecuteMutations_unit_error_aborts (executor : DGoExecutor)
    (pre post : list MutationBuilder) (m : MutationBuilder) (e : error)
    (st : gmap nat GoValue) :
  ensureClient executor = None ->
  Forall (fun u => unit_error u = None) pre ->
  unit_error m = Some e ->
  ExecuteMutations executor (pre ++ m :: post) st = Ok (st, (None, Some e)).
Proof.
  intros Hc Hpre Hm. unfold ExecuteMutations, ExecuteMutations_request.
  rewrite Hc, (ExecuteMutations_units_prefix _ _ _ Hpre).
  by rewrite (ExecuteMutations_units_step_error _ _ _ _ _ _ Hm).
Qed.

Lemma ExecuteMutations_unit_error_aborts_witness :
  ExecuteMutations ready
    [unit_of (Some guard) starved_query; unmarshalable; unit_of None nil_time_query] ∅
  = Ok (∅, (None, Some (Err "json: unsupported type"))).
Proof.
  apply (ExecuteMutations_unit_error_aborts ready
           [unit_of (Some guard) starved_query] [unit_of None nil_time_query] unmarshalable).
  - reflexivity.
  - repeat constructor.
  - reflexivity.
Defined.

(** *** The wire request *)

Lemma ExecuteMutations_units_all_ok (executor : DGoExecutor)
    (mutations : list MutationBuilder) :
  forall queries requests result,
    ExecuteMutations_units executor mutations queries requests = inr result ->
    Forall (fun u => unit_error u = None) mutations.
Proof.
  induction mutations as [|u mutations IH]; intros queries requests result Hu; [constructor|].
  destruct (unit_error u) as [e|] eqn:He.
  - by rewrite (ExecuteMutations_units_step_error _ _ _ _ _ _ He) in Hu.
  - rewrite (ExecuteMutations_units_step_ok _ _ _ _ _ He) in Hu.
    constructor; [done | by eapply IH].
Qed.

(** X14.  The request [ExecuteMutations] builds holds one mutation for
    each unit, in order, with the unit's marshalled set and delete data; the
    request and each of its mutations ask for an immediate commit exactly
    when the executor has no transaction of its own; the read-only and
    best-effort flags are the executor's, and the response format is JSON.
    The attached queries are those of the units, in order. *)
Theorem ExecuteMutations_request_shape (executor : DGoExecutor)
    (mutations : list MutationBuilder) (request : api_Request)
    (queries : list QueryBuilder) :
  ExecuteMutations_request executor mutations = Ok (inr (request, queries)) ->
  queries = query <$> mutations
  /\ List.length (Mutations request) = List.length mutations
  /\ (forall i mu, Mutations request !! i = Some mu ->
        exists m, mutations !! i = Some m
                  /\ mutationData m = (SetJson mu, DeleteJson mu, None)
                  /\ CommitNow mu = Request_CommitNow request)
  /\ (Request_CommitNow request = true <-> tnx executor = None)
  /\ ReadOnly request = readOnly executor
  /\ BestEffort request = bestEffort executor
  /\ RespFormat request = Request_JSON.
Proof.
  intros H.
  assert (Forall (fun u => unit_error u = None) mutations) as Hall.
  { unfold ExecuteMutations_request in H.
    destruct (ensureClient executor); [done|].
    destruct (ExecuteMutations_units executor mutations [] []) as [e|result] eqn:Hu; [done|].
    by eapply ExecuteMutations_units_all_ok. }
  apply ExecuteMutations_request_built in H as (-> & text & vars & err & _ & ->).
  split; [done|]. split; [cbn; by rewrite length_fmap|].
  split.
  - intros i mu Hmu. cbn in Hmu. rewrite list_lookup_fmap in Hmu.
    destruct (mutations !! i) as [m|] eqn:Hm; [|done]. injection Hmu as <-.
    exists m. split; [done|]. split; [|done].
    apply (Forall_lookup_1 _ _ _ _ Hall) in Hm. apply unit_error_None in Hm as [Hd _].
    cbn. destruct (mutationData m) as [[s d] x]. cbn in Hd. by subst x.
  - cbn. repeat split; try done; by destruct (tnx executor).
Qed.

Lemma ExecuteMutations_request_shape_witness :
  let executor :=
    WithBestEffort true
      (WithTnx (Some accepting) (WithClient (client ready) (NewDGoExecutor None))) in
  let batch := [unit_of (Some guard) (person [VString "Ann"])] in
  let request :=
    request_for executor batch
      "query Person($0:string) { person(func: eq(name, $0)) { uid } }"
      (Some (<["$0" := "Ann"]> ∅)) in
  List.length (Mutations request) = 1%nat
  /\ (Request_CommitNow request = true <-> tnx executor = None)
  /\ BestEffort request = bestEffort executor.
Proof.
  intros executor batch request.
  destruct (ExecuteMutations_request_shape executor batch request [person [VString "Ann"]])
    as (_ & Hlen & _ & Hcommit & _ & Hbest & _); [vm_compute; reflexivity|].
  split; [exact Hlen | split; [exact Hcommit | exact Hbest]].
Defined.

(** *** The client check and the transaction *)

(** X15.  Without a client, [ExecuteQueries] and [ExecuteMutations] return
    the error of [ensureClient], with no response and with the decode
    destinations as they were, whatever the queries and units are, and also
    when the executor has a transaction of its own. *)
Theorem Execute_without_client (executor : DGoExecutor)
    (queries : list QueryBuilder) (mutations : list MutationBuilder)
    (st : gmap nat GoValue) :
  client executor = None ->
  ensureClient executor <> None
  /\ ExecuteQueries executor queries st = Ok (st, (None, ensureClient executor))
  /\ ExecuteMutations executor mutations st = Ok (st, (None, ensureClient executor)).
Proof.
  intros Hc. unfold ExecuteQueries, ExecuteMutations, ExecuteMutations_request, ensureClient.
  by rewrite Hc.
Qed.

Lemma Execute_without_client_witness :
  let executor := WithReadOnly true (WithTnx (Some accepting) (NewDGoExecutor None)) in
  ensureClient executor <> None
  /\ ExecuteQueries executor [starved_query] ∅ = Ok (∅, (None, ensureClient executor))
  /\ ExecuteMutations executor [unmarshalable] ∅ = Ok (∅, (None, ensureClient executor)).
Proof.
  intros executor.
  apply (Execute_without_client executor [starved_query] [unmarshalable] ∅).
  reflexivity.
Defined.

(** X16.  Once [ensureClient] has passed, [getTnx] returns a transaction
    and does not panic: the executor's own when it has one, and else a new
    one from the client, read-only exactly when the executor is. *)
Theorem getTnx_after_ensureClient (executor : DGoExecutor) :
  ensureClient executor = None ->
  exists tx,
    getTnx executor = Ok tx
    /\ (forall ambient, tnx executor = Some ambient -> tx = ambient)
    /\ (tnx executor = None ->
        exists c, client executor = Some c
                  /\ tx = if readOnly executor then NewReadOnlyTxn c else NewTxn c).
Proof.
  unfold ensureClient, getTnx. destruct (client executor) as [c|]; [|done]. intros _.
  destruct (tnx executor) as [tx|].
  - exists tx. split; [done|]. split; [by intros ambient [= ->] | done].
  - eexists. split; [done|]. split; [done|]. intros _. by exists c.
Qed.

Lemma getTnx_after_ensureClient_witness :
  exists tx,
    getTnx (WithTnx (Some refusing) ready) = Ok tx
    /\ (forall ambient, tnx (WithTnx (Some refusing) ready) = Some ambient -> tx = ambient)
    /\ (tnx (WithTnx (Some refusing) ready) = None ->
        exists c, client (WithTnx (Some refusing) ready) = Some c
                  /\ tx = if readOnly (WithTnx (Some refusing) ready)
                          then NewReadOnlyTxn c else NewTxn c).
Proof. apply getTnx_after_ensureClient. reflexivity. Defined.

(** X17.  Whenever [ExecuteQueries] returns, either it returns an error
    with no response and the decode destinations as they were, or the
    queries compiled without error, the transaction answered the compiled
    query, the commit went well unless the executor is read-only, and the
    result and the destinations are those of [toResponse] on that answer. *)
Theorem ExecuteQueries_touches_store_only_by_decoding (executor : DGoExecutor)
    (queries : list QueryBuilder) (st st' : gmap nat GoValue) (result : Executed) :
  ExecuteQueries executor queries st = Ok (st', result) ->
  (st' = st /\ exists e, result = (None, Some e))
  \/ exists text vars tx resp,
       QueriesToDQL queries = Ok (text, vars, None)
       /\ getTnx executor = Ok tx
       /\ QueryWithVars tx text vars = inr resp
       /\ (readOnly executor = true \/ Commit tx = None)
       /\ toResponse resp queries st = (st', result).
Proof.
  unfold ExecuteQueries.
  destruct (ensureClient executor) as [e|]; [intros [= <- <-]; left; eauto|].
  destruct (QueriesToDQL queries) as [[[text vars] [e|]]| |]; cbn; try done.
  { intros [= <- <-]; left; eauto. }
  destruct (getTnx executor) as [tx| |]; cbn; try done.
  destruct (QueryWithVars tx text vars) as [e|resp] eqn:Hq; [intros [= <- <-]; left; eauto|].
  destruct (readOnly executor) eqn:Hro.
  - intros [= H]. right. exists text, vars, tx, resp. repeat split; auto.
  - destruct (Commit tx) as [e|] eqn:Hcommit; [intros [= <- <-]; left; eauto|].
    intros [= H]. right. exists text, vars, tx, resp. repeat split; auto.
Qed.

Lemma ExecuteQueries_touches_store_only_by_decoding_witness :
  let st := <[1%nat := VNil]> ∅ in
  (st = st /\ exists e, ((None, Some (Err "commit refused")) : Executed) = (None, Some e))
  \/ exists text vars tx resp,
       QueriesToDQL [decoding "who" (anyDest 1)] = Ok (text, vars, None)
       /\ getTnx (WithTnx (Some {| Do := Do accepting;
                                   QueryWithVars := QueryWithVars accepting;
                                   Commit := Commit refusing |}) ready) = Ok tx
       /\ QueryWithVars tx text vars = inr resp
       /\ (readOnly (WithTnx (Some {| Do := Do accepting;
                                     QueryWithVars := QueryWithVars accepting;
                                     Commit := Commit refusing |}) ready) = true
           \/ Commit tx = None)
       /\ toResponse resp [decoding "who" (anyDest 1)] st
          = (st, (None, Some (Err "commit refused"))).
Proof.
  intros st.
  apply (ExecuteQueries_touches_store_only_by_decoding
           (WithTnx (Some {| Do := Do accepting;
                             QueryWithVars := QueryWithVars accepting;
                             Commit := Commit refusing |}) ready)
           [decoding "who" (anyDest 1)] st st).
  vm_compute; reflexivity.
Defined.

(** X18.  Whenever [ExecuteMutations] returns, either it returns an error
    with no response and the decode destinations as they were, or the
    transaction answered the one request built from the units, and the
    result and the destinations are those of [toResponse] on that answer and
    the queries of the units. *)
Theorem ExecuteMutations_touches_store_only_by_decoding (executor : DGoExecutor)
    (mutations : list MutationBuilder) (st st' : gmap nat GoValue) (result : Executed) :
  ExecuteMutations executor mutations st = Ok (st', result) ->
  (st' = st /\ exists e, result = (None, Some e))
  \/ exists request tx resp,
       ExecuteMutations_request executor mutations
         = Ok (inr (request, query <$> mutations))
       /\ getTnx executor = Ok tx
       /\ Do tx request = inr resp
       /\ toResponse resp (query <$> mutations) st = (st', result).
Proof.
  unfold ExecuteMutations.
  destruct (ExecuteMutations_request executor mutations)
    as [[e|[request queries]]| |] eqn:Hreq; cbn; try done.
  { intros [= <- <-]; left; eauto. }
  destruct (ExecuteMutations_request_built _ _ _ _ Hreq) as [-> _].
  destruct (getTnx executor) as [tx| |]; cbn; try done.
  destruct (Do tx request) as [e|resp] eqn:Hdo; [intros [= <- <-]; left; eauto|].
  intros [= H]. right. by exists request, tx, resp.
Qed.

Lemma ExecuteMutations_touches_store_only_by_decoding_witness :
  let st := <[1%nat := VNil]> ∅ in
  let batch := [unit_of None (decoding "who" (anyDest 1))] in
  (<[1%nat := VString "Ann"]> st = st
   /\ exists e, ((Some {| Raw := payload; dataKeyPath := "who" |}, None) : Executed)
                = (None, Some e))
  \/ exists request tx resp,
       ExecuteMutations_request ready batch = Ok (inr (request, query <$> batch))
       /\ getTnx ready = Ok tx
       /\ Do tx request = inr resp
       /\ toResponse resp (query <$> batch) st
          = (<[1%nat := VString "Ann"]> st,
             (Some {| Raw := payload; dataKeyPath := "who" |}, None)).
Proof.
  intros st batch.
  apply (ExecuteMutations_touches_store_only_by_decoding ready batch st).
  vm_compute; reflexivity.
Defined.

(** *** Batches without an attached query *)









Lemma spaces_only_app (a b : string) : spaces_only a -> spaces_only b -> spaces_only (a ++ b).
Proof.
  induction a as [|c a IH]; intros Ha Hb; [done|].
  destruct Ha as [Hc Ha]. rewrite append_cons. split; [done | by apply IH].
Qed.









End ExecutorMore.

(** ** More on decoding a response *)

Module DecoderMore.
Import GoStrings GoTime Dqlx DqlxSpec DqlxExamples DqlxMore.
Import AssemblerFacts DecoderFacts AssemblerMore.

Lemma ensureUniqueQueryNames_destinations (queries : list QueryBuilder) :
  unmarshalInto <$> ensureUniqueQueryNames queries = unmarshalInto <$> queries.
Proof. apply ensureUniqueQueryNames_from_keeps. Qed.

Lemma toResponse_loop_no_destination (resp : api_Response)
    (queries : list QueryBuilder) (st : gmap nat GoValue) :
  Forall (fun into => into = None) (unmarshalInto <$> queries) ->
  toResponse_loop resp queries st = (st, None).
Proof.
  induction queries as [|q queries IH]; [done|].
  cbn [fmap list_fmap toResponse_loop]. intros [Hq Hrest]%Forall_cons.
  rewrite Hq. by apply IH.
Qed.

Lemma toResponse_loop_unparsable (resp : api_Response) (e : error)
    (queries : list QueryBuilder) (st : gmap nat GoValue) :
  Json resp = inl e ->
  Exists (fun into => into <> None) (unmarshalInto <$> queries) ->
  toResponse_loop resp queries st = (st, Some e).
Proof.
  intros Hjson. induction queries as [|q queries IH]; [by intros ?%Exists_nil|].
  cbn [fmap list_fmap toResponse_loop]. intros [Hq|Hrest]%Exists_cons.
  - destruct (unmarshalInto q) as [into|]; [|done].
    unfold Unmarshal. cbn [Raw]. by rewrite Hjson.
  - destruct (unmarshalInto q) as [into|]; [|by apply IH].
    unfold Unmarshal. cbn [Raw]. by rewrite Hjson.
Qed.

Lemma Unmarshal_key (raw raw' : api_Response) (values values' : gmap string JSON)
    (key : string) (value : Dest) (st : gmap nat GoValue) :
  Json raw = inr values -> Json raw' = inr values' ->
  key <> "" ->
  default JNull (values !! key) = default JNull (values' !! key) ->
  Unmarshal {| Raw := raw; dataKeyPath := key |} value st
  = Unmarshal {| Raw := raw'; dataKeyPath := key |} value st.
Proof.
  intros Hraw Hraw' Hkey Hsame. unfold Unmarshal. cbn [Raw dataKeyPath].
  rewrite Hraw, Hraw'. apply String.eqb_neq in Hkey. rewrite Hkey. cbn [negb].
  by rewrite Hsame.
Qed.

Lemma toResponse_loop_keys (raw raw' : api_Response) (values values' : gmap string JSON)
    (queries : list QueryBuilder) (st : gmap nat GoValue) :
  Json raw = inr values -> Json raw' = inr values' ->
  Forall (fun q => unmarshalInto q <> None ->
                   Name (rootEdge q) <> ""
                   /\ default JNull (values !! Name (rootEdge q))
                      = default JNull (values' !! Name (rootEdge q))) queries ->
  toResponse_loop raw queries st = toResponse_loop raw' queries st.
Proof.
  intros Hraw Hraw' Hall. revert st.
  induction Hall as [|q queries Hq _ IH]; intros st; [done|].
  cbn [toResponse_loop]. destruct (unmarshalInto q) as [into|]; [|apply IH].
  destruct Hq as [Hname Hsame]; [done|].
  rewrite (Unmarshal_key raw raw' values values' _ into st Hraw Hraw' Hname Hsame).
  destruct (Unmarshal _ into st) as [st' [err|]]; [done | apply IH].
Qed.

(** X19.  When no query has a decode destination, [toResponse] returns a
    response on the payload as it is, parsable or not, with the name of the
    only query as its key path, or the empty key path when there is not
    exactly one query; the destinations are as they were. *)
Theorem toResponse_without_destination (resp : api_Response)
    (queries : list QueryBuilder) (st : gmap nat GoValue) :
  Forall (fun q => unmarshalInto q = None) queries ->
  toResponse resp queries st
  = (st, (Some {| Raw := resp; dataKeyPath := key_path_of queries |}, None)).
Proof.
  intros Hnone. unfold toResponse.
  rewrite toResponse_loop_no_destination; [done|].
  rewrite ensureUniqueQueryNames_destinations. by apply Forall_fmap.
Qed.

Lemma toResponse_without_destination_witness :
  toResponse unparsable [named "people"] ∅
  = (∅, (Some {| Raw := unparsable; dataKeyPath := "people" |}, None)).
Proof.
  apply (toResponse_without_destination unparsable [named "people"] ∅).
  repeat constructor.
Defined.

(** X20.  When the payload is not valid JSON and some query has a decode
    destination, [toResponse] returns the parse error with no response, and
    the destinations are as they were. *)
Theorem toResponse_unparsable_payload (resp : api_Response) (e : error)
    (queries : list QueryBuilder) (st : gmap nat GoValue) :
  Json resp = inl e ->
  Exists (fun q => unmarshalInto q <> None) queries ->
  toResponse resp queries st = (st, (None, Some e)).
Proof.
  intros Hjson Hsome. unfold toResponse.
  rewrite (toResponse_loop_unparsable resp e); [done..|].
  rewrite ensureUniqueQueryNames_destinations. by apply Exists_fmap.
Qed.

Lemma toResponse_unparsable_payload_witness :
  toResponse unparsable [named "people"; decoding "who" (anyDest 1)] (<[1%nat := VNil]> ∅)
  = (<[1%nat := VNil]> ∅, (None, Some (Err "unexpected end of JSON input"))).
Proof.
  apply (toResponse_unparsable_payload unparsable (Err "unexpected end of JSON input")
           [named "people"; decoding "who" (anyDest 1)]).
  - reflexivity.
  - apply Exists_cons_tl, Exists_cons_hd. discriminate.
Defined.

(** X21.  [toResponse] reads of the payload only the values under the
    names of the renamed queries that have a decode destination, a missing
    key counting as null: two payloads that agree on these give the same
    destinations and the same error, and a response in the same cases.
    The names have to be non-empty, the empty key path standing for the
    whole payload. *)
Theorem toResponse_reads_named_keys (raw raw' : api_Response)
    (values values' : gmap string JSON) (queries : list QueryBuilder)
    (st : gmap nat GoValue) :
  Json raw = inr values -> Json raw' = inr values' ->
  Forall (fun q => unmarshalInto q <> None ->
                   Name (rootEdge q) <> ""
                   /\ default JNull (values !! Name (rootEdge q))
                      = default JNull (values' !! Name (rootEdge q)))
         (ensureUniqueQueryNames queries) ->
  (toResponse raw queries st).1 = (toResponse raw' queries st).1
  /\ (toResponse raw queries st).2.2 = (toResponse raw' queries st).2.2
  /\ ((toResponse raw queries st).2.1 = None <-> (toResponse raw' queries st).2.1 = None).
Proof.
  intros Hraw Hraw' Hall. unfold toResponse.
  rewrite (toResponse_loop_keys raw raw' values values' _ st Hraw Hraw' Hall).
  by destruct (toResponse_loop raw' _ st) as [st' [err|]].
Qed.

Lemma toResponse_reads_named_keys_witness :
  let raw' := {| Json := inr (<["who" := JString "Ann"]> (<["absent" := JNull]> ∅)) |} in
  let queries := [decoding "who" (anyDest 1); decoding "absent" (anyDest 2)] in
  let st := <[1%nat := VNil]> (<[2%nat := VNil]> ∅) in
  (toResponse payload queries st).1 = (toResponse raw' queries st).1
  /\ (toResponse payload queries st).2.2 = (toResponse raw' queries st).2.2
  /\ ((toResponse payload queries st).2.1 = None <-> (toResponse raw' queries st).2.1 = None).
Proof.
  intros raw' queries st.
  apply (toResponse_reads_named_keys payload raw'
           (<["joined" := JString "yesterday"]> (<["who" := JString "Ann"]> ∅))
           (<["who" := JString "Ann"]> (<["absent" := JNull]> ∅)) queries st);
    [reflexivity | reflexivity |].
  replace (ensureUniqueQueryNames queries) with queries by (vm_compute; reflexivity).
  apply Forall_cons; split; [|apply Forall_cons; split; [|by apply Forall_nil]];
    (intros _; split; [discriminate | vm_compute; reflexivity]).
Defined.

(** X22.  For a destination that is a time, the decode hook succeeds only
    on a JSON string that [time.Parse] accepts for the layout
    [time.RFC3339], and then gives the time parsed; on null, a boolean, a
    number, an array or an object it fails. *)
Theorem DecodeHook_time_only_from_text (from : JSON) (v : GoValue) :
  DecodeHook from TimeType = inr v ->
  exists s t, from = JString s /\ Parse_RFC3339 s = inr t /\ v = VTime t.
Proof.
  unfold DecodeHook.
  destruct from as [|b|shown|s|items|fields]; cbn [reflect_String].
  4: { destruct (Parse_RFC3339 s) as [err|t] eqn:Hp; [done|].
       intros [= <-]. by exists s, t. }
  all: intros Hfail; vm_compute in Hfail; discriminate Hfail.
Qed.

Lemma DecodeHook_time_only_from_text_witness :
  exists s t, JString "2021-03-04T5:06:07,5+24:00" = JString s
              /\ Parse_RFC3339 s = inr t
              /\ VTime (mkTime 1614747967 500000000 86400) = VTime t.
Proof.
  apply (DecodeHook_time_only_from_text (JString "2021-03-04T5:06:07,5+24:00")).
  vm_compute; reflexivity.
Defined.

End DecoderMore.
